(** * Replication engine of the GraphQL replication plugin

    Shallow embedding of the replication engine: checkpoint store, echo
    tagger, pull cycle, push cycle and run coordinator.  The plugin module
    itself ([plugins/replication-graphql]) is only reachable through its
    test suite, so the engine is modelled after the specification of the
    repository; every such definition says so in its doc comment. *)

From Stdlib Require Import String Ascii List Arith Lia Bool PeanoNat.
From Stdlib Require Import Sorting.Sorted Eqdep_dec ZArith DecimalString DecimalNat.
From Stdlib Require DecimalFacts.
Import ListNotations.

Open Scope string_scope.

(** ** String helpers (JavaScript [String.prototype] operations) *)

(** [s.endsWith(suf)], computed as JavaScript does it: compare the last
    [suf.length] characters of [s] with [suf]. *)
Definition endsWith (suf s : string) : bool :=
  String.eqb (substring (String.length s - String.length suf)
                        (String.length suf) s) suf.

(** [s.startsWith(pre)]. *)
Definition startsWith (pre s : string) : bool := String.prefix pre s.

(** ** Endpoint identity *)

(** Width of an endpoint hash (hex digits of the md5 hash of the URL). *)
Definition HASH_WIDTH : nat := 32.

(** Modelled from the spec: the endpoint identity, "a stable hash of the
    remote's connection identity"; being a hash it has a fixed width. *)
Record endpoint := mkEndpoint {
  endpointHash : string;
  endpointHash_width : String.length endpointHash = HASH_WIDTH
}.

(** ** Echo tagger *)

Definition GRAPHQL_REPLICATION_PLUGIN_IDENT : string := "rxdbreplicationgraphql".

Section EchoTagger.

(** The content hash used by the database ([hash] of the core plugin). *)
Variable hash : string -> string.

(** Document content: the field/value pairs of a document. *)
Definition content := list (string * string).

(** A stable serialization of a document's content. *)
Fixpoint serialize (c : content) : string :=
  match c with
  | [] => ""
  | (k, v) :: rest => k ++ "=" ++ v ++ ";" ++ serialize rest
  end.

(** Modelled from the spec ([createRevisionForPulledDocument]): hash of the
    endpoint identity concatenated with the serialized content, followed by
    an endpoint-derived suffix. *)
Definition tagRevision (E : endpoint) (c : content) : string :=
  hash (endpointHash E ++ serialize c) ++ "-" ++
  endpointHash E ++ GRAPHQL_REPLICATION_PLUGIN_IDENT.

(** Modelled from the spec ([wasRevisionfromPullReplication]): the marker's
    suffix is the one [tagRevision] produces for this endpoint. *)
Definition wasTaggedBy (E : endpoint) (rev : string) : bool :=
  endsWith (endpointHash E ++ GRAPHQL_REPLICATION_PLUGIN_IDENT) rev.

End EchoTagger.

(** ** Local store

    The local storage engine is an external collaborator: a change log in
    which every write gets the next value of a monotonic per-database
    sequence number.  [get] returns the newest state of a primary key;
    [changesSince] returns up to [limit] change records after a sequence
    number, in sequence order. *)

(** Body of a stored document: a user document, or a checkpoint document
    of the replication ([lastPushSequence], [lastPullCursor]). *)
Definition cursor := nat.

Inductive body :=
| UserDoc (fields : content)
| CheckpointDoc (lastPushSequence : nat) (lastPullCursor : option cursor).

Record doc := mkDoc {
  _rev : string;
  _deleted : bool;
  doc_body : body
}.

Record change := mkChange {
  sequence : nat;
  change_id : string;
  change_doc : doc
}.

(** [st_log] holds the change records, newest first. *)
Record store := mkStore {
  st_log : list change;
  st_seq : nat
}.

Definition emptyStore : store := mkStore [] 0.

(** Upsert: one more change record at the next sequence number. *)
Definition upsert (st : store) (id : string) (d : doc) : store :=
  mkStore (mkChange (S (st_seq st)) id d :: st_log st) (S (st_seq st)).

(** Point read of the newest state of a primary key. *)
Fixpoint findLatest (log : list change) (id : string) : option doc :=
  match log with
  | [] => None
  | c :: rest =>
      if String.eqb (change_id c) id then Some (change_doc c)
      else findLatest rest id
  end.

Definition get (st : store) (id : string) : option doc :=
  findLatest (st_log st) id.

Definition changesSince (st : store) (since limit : nat) : list change :=
  firstn limit (filter (fun c => Nat.ltb since (sequence c)) (rev (st_log st))).

(** A document is visible to queries when it exists and is not deleted. *)
Definition isPresent (st : store) (id : string) : bool :=
  match get st id with
  | Some d => negb (_deleted d)
  | None => false
  end.

(** ** Checkpoint store *)

(** Modelled from the spec (checkpoint documents): one checkpoint document
    per endpoint, stored in the local store under a reserved prefix plus the
    endpoint identity. *)
Definition CHECKPOINT_PREFIX : string :=
  "_local/" ++ GRAPHQL_REPLICATION_PLUGIN_IDENT ++ "-".

Definition checkpointId (E : endpoint) : string :=
  CHECKPOINT_PREFIX ++ endpointHash E.

Definition isCheckpointId (id : string) : bool :=
  startsWith CHECKPOINT_PREFIX id.

Definition CHECKPOINT_REV : string := "0-checkpoint".

(** Modelled from the spec ([getLastPushSequence]): default 0. *)
Definition getLastPushSequence (st : store) (E : endpoint) : nat :=
  match get st (checkpointId E) with
  | Some (mkDoc _ _ (CheckpointDoc push _)) => push
  | _ => 0
  end.

(** Modelled from the spec ([getLastPullDocument]): default null. *)
Definition getLastPullDocument (st : store) (E : endpoint) : option cursor :=
  match get st (checkpointId E) with
  | Some (mkDoc _ _ (CheckpointDoc _ pull)) => pull
  | _ => None
  end.

(** Modelled from the spec ([setLastPushSequence]): a local write of the
    checkpoint document; the pull cursor it holds is kept. *)
Definition setLastPushSequence (st : store) (E : endpoint) (n : nat) : store :=
  upsert st (checkpointId E)
    (mkDoc CHECKPOINT_REV false
       (CheckpointDoc n (getLastPullDocument st E))).

(** Modelled from the spec ([setLastPullDocument]): a local write of the
    checkpoint document; the push sequence it holds is kept. *)
Definition setLastPullDocument (st : store) (E : endpoint) (c : cursor) : store :=
  upsert st (checkpointId E)
    (mkDoc CHECKPOINT_REV false
       (CheckpointDoc (getLastPushSequence st E) (Some c))).

(** A sequence of setter calls on the checkpoint store. *)
Inductive checkpoint_call :=
| SetPush (E : endpoint) (n : nat)
| SetPull (E : endpoint) (c : cursor).

Definition apply_checkpoint_call (st : store) (op : checkpoint_call) : store :=
  match op with
  | SetPush E n => setLastPushSequence st E n
  | SetPull E c => setLastPullDocument st E c
  end.

Definition run_checkpoint_calls (st : store) (ops : list checkpoint_call) : store :=
  fold_left apply_checkpoint_call ops st.

(** The value of the most recent [SetPush] (resp. [SetPull]) call for an
    endpoint, if any. *)
Fixpoint lastPushSet (E : endpoint) (ops : list checkpoint_call) : option nat :=
  match ops with
  | [] => None
  | op :: rest =>
      match lastPushSet E rest with
      | Some n => Some n
      | None =>
          match op with
          | SetPush E' n => if String.eqb (endpointHash E') (endpointHash E)
                            then Some n else None
          | SetPull _ _ => None
          end
      end
  end.

Fixpoint lastPullSet (E : endpoint) (ops : list checkpoint_call) : option cursor :=
  match ops with
  | [] => None
  | op :: rest =>
      match lastPullSet E rest with
      | Some c => Some c
      | None =>
          match op with
          | SetPull E' c => if String.eqb (endpointHash E') (endpointHash E)
                            then Some c else None
          | SetPush _ _ => None
          end
      end
  end.

(** ** Push cycle: change scan *)

(** One coalesced entry per primary key: the id and the newest state. *)
Definition changedDoc := (string * doc)%type.

Record changesResult := mkChangesResult {
  changedDocs : list changedDoc;
  lastSequence : nat
}.

(** Modelled from the spec (push cycle, step 1): a change record is
    coalesced into the result unless its key is already there, it is a
    checkpoint document, or the current revision of the document was tagged
    by the endpoint (echo suppression). *)
Definition coalesceChange (E : endpoint) (st : store)
    (acc : list changedDoc) (c : change) : list changedDoc :=
  let id := change_id c in
  if existsb (fun e => String.eqb (fst e) id) acc then acc
  else if isCheckpointId id then acc
  else match get st id with
       | None => acc
       | Some d => if wasTaggedBy E (_rev d) then acc else app acc [(id, d)]
       end.

(** Modelled from the spec ([getChangesSinceLastPushSequence]): read up to
    [limit] change records after the push checkpoint, coalesce them, and
    return the highest sequence number covered by the read. *)
Definition getChangesSinceLastPushSequence (st : store) (E : endpoint)
    (limit : nat) : changesResult :=
  let since := getLastPushSequence st E in
  let rows := changesSince st since limit in
  mkChangesResult (fold_left (coalesceChange E st) rows [])
                  (fold_left (fun m c => Nat.max m (sequence c)) rows since).

(** ** Sessions, rows and events *)

(** A row of the remote feed.  [row_key] is the remote's ordering key
    (e.g. updatedAt then id), from which the pull cursor is derived. *)
Record row := mkRow {
  row_id : string;
  row_key : nat;
  row_deleted : bool;
  row_fields : content
}.

Definition cursorOf (r : row) : cursor := row_key r.

Inductive replication_error :=
| ValidationError (r : row)
| TransportError.

Inductive event :=
| Received (r : row)
| Sent (e : changedDoc)
| Error (err : replication_error).

Record session := mkSession {
  se_store : store;
  se_events : list event
}.

Definition emit (s : session) (ev : event) : session :=
  mkSession (se_store s) (app (se_events s) [ev]).

Record pullOptions := mkPullOptions {
  pull_modifier : row -> option row;
  pull_validate : row -> bool;
  pageSize : nat
}.

Record pushOptions := mkPushOptions {
  push_modifier : changedDoc -> option changedDoc;
  batchSize : nat
}.

(** The transport: a pull request for a cursor ([None]: the transport
    failed) and a push request for a batch ([false]: the transport failed). *)
Record transport := mkTransport {
  requestPull : option cursor -> option (list row);
  requestPush : list changedDoc -> bool
}.

Inductive cycleOutcome := CycleDone | CycleFailed | CycleOutOfFuel.

Fixpoint lastRow (rows : list row) : option row :=
  match rows with
  | [] => None
  | [r] => Some r
  | _ :: rest => lastRow rest
  end.

Section Engine.

Variable hash : string -> string.

(** ** Pull cycle *)

Definition pulledContent (r : row) : content :=
  ("id", row_id r) :: ("deleted", if row_deleted r then "true" else "false")
  :: row_fields r.

(** The local document written for a pulled row: tagged for the endpoint;
    a deleted row is written as a tombstone. *)
Definition pulledDoc (E : endpoint) (r : row) : doc :=
  mkDoc (tagRevision hash E (pulledContent r)) (row_deleted r)
        (UserDoc (row_fields r)).

(** Modelled from the spec (pull cycle, steps 3 and 4): apply the modifier
    (a [None] result drops the row), validate the modified row (a failure
    emits one error event and skips the row), otherwise upsert it. *)
Definition applyRow (E : endpoint) (cfg : pullOptions) (s : session)
    (r : row) : session :=
  match pull_modifier cfg r with
  | None => s
  | Some r' =>
      if pull_validate cfg r'
      then mkSession (upsert (se_store s) (row_id r') (pulledDoc E r'))
                     (app (se_events s) [Received r'])
      else emit s (Error (ValidationError r'))
  end.

(** Modelled from the spec (pull cycle, steps 3 to 5): apply every row of
    the page, then persist the cursor derived from the last row. *)
Definition pullPage (E : endpoint) (cfg : pullOptions) (s : session)
    (page : list row) : session :=
  let s1 := fold_left (applyRow E cfg) page s in
  match lastRow page with
  | None => s1
  | Some r => mkSession (setLastPullDocument (se_store s1) E (cursorOf r))
                        (se_events s1)
  end.

(** Modelled from the spec (pull cycle): request pages until one returns
    fewer than [pageSize] rows.  [fuel] bounds the number of requests; the
    result counts the answered requests. *)
Fixpoint pullLoop (fuel : nat) (E : endpoint) (cfg : pullOptions)
    (tr : transport) (s : session) (pages : nat)
    : session * nat * cycleOutcome :=
  match fuel with
  | 0 => (s, pages, CycleOutOfFuel)
  | S f =>
      match requestPull tr (getLastPullDocument (se_store s) E) with
      | None => (emit s (Error TransportError), pages, CycleFailed)
      | Some page =>
          let s' := pullPage E cfg s page in
          if Nat.eqb (length page) (pageSize cfg)
          then pullLoop f E cfg tr s' (S pages)
          else (s', S pages, CycleDone)
      end
  end.

End Engine.

(** ** Push cycle *)

Definition filterMap {A B} (f : A -> option B) (l : list A) : list B :=
  fold_right (fun a acc => match f a with Some b => b :: acc | None => acc end)
             [] l.

(** Modelled from the spec (push cycle): scan, modify, send, and advance the
    push checkpoint to the highest sequence covered by the read; repeat while
    the read was capped by [batchSize]. *)
Fixpoint pushLoop (fuel : nat) (E : endpoint) (cfg : pushOptions)
    (tr : transport) (s : session) : session * cycleOutcome :=
  match fuel with
  | 0 => (s, CycleOutOfFuel)
  | S f =>
      let st := se_store s in
      let read := changesSince st (getLastPushSequence st E) (batchSize cfg) in
      match read with
      | [] => (s, CycleDone)
      | _ :: _ =>
          let res := getChangesSinceLastPushSequence st E (batchSize cfg) in
          let batch := filterMap (push_modifier cfg) (changedDocs res) in
          let ok := match batch with [] => true | _ => requestPush tr batch end in
          if ok then
            let s' := mkSession (setLastPushSequence st E (lastSequence res))
                                (app (se_events s) (map Sent batch)) in
            if Nat.eqb (length read) (batchSize cfg)
            then pushLoop f E cfg tr s' else (s', CycleDone)
          else (emit s (Error TransportError), CycleFailed)
      end
  end.

(** Modelled from the spec (a run): the pull cycle, then the push cycle; the
    run succeeds when both complete. *)
Definition runCycle (hash : string -> string) (fuel : nat) (E : endpoint)
    (pullCfg : pullOptions) (pushCfg : pushOptions) (tr : transport)
    (s : session) : session * bool :=
  match pullLoop hash fuel E pullCfg tr s 0 with
  | (s1, _, CycleDone) =>
      match pushLoop fuel E pushCfg tr s1 with
      | (s2, CycleDone) => (s2, true)
      | (s2, _) => (s2, false)
      end
  | (s1, _, _) => (s1, false)
  end.

(** ** The remote endpoint of the test suite

    The feed of the test server ([feedForRxDBReplication]): the rows after
    the cursor, in the server's order, at most [limit] of them.  Pushes are
    acknowledged. *)
Definition rowsAfter (c : option cursor) (rem : list row) : list row :=
  filter (fun r => match c with None => true | Some k => Nat.ltb k (row_key r) end)
         rem.

Definition feedPage (rem : list row) (limit : nat) (c : option cursor)
    : list row :=
  firstn limit (rowsAfter c rem).

Definition serverTransport (rem : list row) (limit : nat) : transport :=
  mkTransport (fun c => Some (feedPage rem limit c)) (fun _ => true).

(** ** Run coordinator *)

(** Modelled from the spec (run coordinator): an in-flight flag and a
    pending-intent flag per session, the retry timers (due times), the
    clock, the number of cycle attempts started, the state of
    [awaitInitialReplication()] and the stopped flag. *)
Record coordinator := mkCoordinator {
  inFlight : bool;
  pendingRun : bool;
  retryTimers : list nat;
  now : nat;
  attempts : nat;
  initialReplicationComplete : bool;
  stopped : bool
}.

Record coordOptions := mkCoordOptions {
  live : bool;
  retryTime : nat
}.

Definition initCoordinator : coordinator :=
  mkCoordinator false false [] 0 0 false false.

Inductive coordEvent :=
| RunCall
| CycleFinished (ok : bool)
| Tick
| Cancel.

(** Modelled from the spec ([run()]): a call while a cycle is in flight
    only records the pending intent; otherwise a cycle attempt starts. *)
Definition runCall (s : coordinator) : coordinator :=
  if stopped s then s
  else if inFlight s
  then mkCoordinator true true (retryTimers s) (now s) (attempts s)
                     (initialReplicationComplete s) false
  else mkCoordinator true false (retryTimers s) (now s) (S (attempts s))
                     (initialReplicationComplete s) false.

(** Modelled from the spec (end of a cycle): a success resolves
    [awaitInitialReplication()] and stops a one-shot session; a failure
    schedules a retry after [retryTime].  A pending intent then starts the
    trailing execution. *)
Definition cycleFinished (o : coordOptions) (ok : bool) (s : coordinator)
    : coordinator :=
  if negb (inFlight s) then s
  else if stopped s
  then mkCoordinator false false (retryTimers s) (now s) (attempts s)
                     (initialReplicationComplete s) true
  else
    let stop := ok && negb (live o) in
    let timers := if ok then retryTimers s
                  else app (retryTimers s) [now s + retryTime o] in
    let initial := initialReplicationComplete s || ok in
    if pendingRun s && negb stop
    then mkCoordinator true false timers (now s) (S (attempts s)) initial stop
    else mkCoordinator false false timers (now s) (attempts s) initial stop.

(** One unit of time passes; every retry timer now due calls [run()]. *)
Definition tick (s : coordinator) : coordinator :=
  let t := S (now s) in
  let due := filter (fun d => Nat.leb d t) (retryTimers s) in
  let later := filter (fun d => negb (Nat.leb d t)) (retryTimers s) in
  fold_left (fun c _ => runCall c) due
    (mkCoordinator (inFlight s) (pendingRun s) later t (attempts s)
                   (initialReplicationComplete s) (stopped s)).

(** Modelled from the spec ([cancel()]): stop, clear timers and intents. *)
Definition cancel (s : coordinator) : coordinator :=
  mkCoordinator (inFlight s) false [] (now s) (attempts s)
                (initialReplicationComplete s) true.

Definition coordStep (o : coordOptions) (s : coordinator) (e : coordEvent)
    : coordinator :=
  match e with
  | RunCall => runCall s
  | CycleFinished ok => cycleFinished o ok s
  | Tick => tick s
  | Cancel => cancel s
  end.

Definition coordRun (o : coordOptions) (s : coordinator) (tr : list coordEvent)
    : coordinator :=
  fold_left (coordStep o) tr s.

(** Events of a run against an endpoint that always fails. *)
Definition failingEvent (e : coordEvent) : bool :=
  match e with
  | CycleFinished true | Cancel => false
  | _ => true
  end.

(** A failed cycle, then time passing until its retry fires. *)
Definition retryRound (o : coordOptions) : list coordEvent :=
  CycleFinished false :: app (repeat Tick (retryTime o - 1)) [Tick].

(** ** Events of a pulled row

    The events [applyRow] emits for one row: none for a row the modifier
    drops, [Received] for an accepted row, one validation error otherwise. *)
Definition rowEvents (cfg : pullOptions) (r : row) : list event :=
  match pull_modifier cfg r with
  | None => []
  | Some r' => if pull_validate cfg r' then [Received r']
               else [Error (ValidationError r')]
  end.

(** The newest row of a list of rows for a primary key. *)
Definition latestRowFor (k : string) (rows : list row) : option row :=
  lastRow (filter (fun r => String.eqb (row_id r) k) rows).

(** The order of the remote feed. *)
Definition keyLt (a b : row) : Prop := row_key a < row_key b.

(** ** Concrete inputs *)

Definition exampleEndpoint : endpoint :=
  mkEndpoint "0123456789abcdef0123456789abcdef" eq_refl.

Definition otherEndpoint : endpoint :=
  mkEndpoint "fedcba9876543210fedcba9876543210" eq_refl.

(** A stand-in for the content hash. *)
Definition exampleHash (s : string) : string := s.

Definition feedRow (id : string) (key : nat) (deleted : bool) : row :=
  mkRow id key deleted [("name", id)].

(** Five documents on the server, as in [getTestData(batchSize)]. *)
Definition exampleFeed : list row :=
  [feedRow "a" 1 false; feedRow "b" 2 false; feedRow "c" 3 false;
   feedRow "d" 4 false; feedRow "e" 5 false].

Definition acceptAll (P : nat) : pullOptions :=
  mkPullOptions Some (fun _ => true) P.

Definition pushAll (n : nat) : pushOptions := mkPushOptions Some n.

Definition emptySession : session := mkSession emptyStore [].

(** A schema requiring a [name] field, and a pull modifier deleting the
    [name] of one document, as in the test
    "should not save pulled documents that do not match the schema". *)
Definition requireName (r : row) : bool :=
  existsb (fun kv => String.eqb (fst kv) "name") (row_fields r).

Definition dropNameOf (id : string) (r : row) : option row :=
  if String.eqb (row_id r) id
  then Some (mkRow (row_id r) (row_key r) (row_deleted r) [])
  else Some r.

Definition schemaCheckedPull : pullOptions :=
  mkPullOptions (dropNameOf "b") requireName 5.

(** A local store holding five user documents and one document written by
    a pull from [exampleEndpoint], as in the test
    "should have filtered out replicated docs from the endpoint". *)
Definition userDoc (name : string) : doc := mkDoc "1-local" false (UserDoc [("name", name)]).

Definition storeWithEcho : store :=
  let st := fold_left (fun st id => upsert st id (userDoc id)) ["a"; "b"; "c"; "d"; "e"]
                      emptyStore in
  upsert st "f" (pulledDoc exampleHash exampleEndpoint (feedRow "f" 6 false)).

(** A local store where document "a" was deleted locally. *)
Definition locallyDeleted : session :=
  mkSession (upsert emptyStore "a" (mkDoc "2-local" true (UserDoc [("name", "a")]))) [].

(** A local store where document "a" exists, and a feed where it is deleted. *)
Definition locallyPresent : session :=
  mkSession (upsert emptyStore "a" (userDoc "a")) [].

Definition feedWithDeletion : list row :=
  [feedRow "a" 1 true; feedRow "b" 2 false].

Definition defaultCoord : coordOptions := mkCoordOptions false 5.

(** * Code of the repository outside the replication engine *)

(** ** JavaScript values *)

(** A JavaScript value as the code below handles it.  Numbers are the
    integers the code stores (no [NaN]); objects are their own properties
    with string keys, in insertion order. *)
#[warnings="-register-all"]
Inductive jsval :=
| JUndefined
| JNull
| JBool (b : bool)
| JNum (n : Z)
| JStr (s : string)
| JObj (fields : list (string * jsval)).

Definition jsobject := list (string * jsval).

(** [!!v]. *)
Definition truthy (v : jsval) : bool :=
  match v with
  | JUndefined | JNull => false
  | JBool b => b
  | JNum n => negb (Z.eqb n 0)
  | JStr s => negb (String.eqb s "")
  | JObj _ => true
  end.

(** [o[k]], [undefined] when [o] has no property [k]. *)
Fixpoint getProp (o : jsobject) (k : string) : jsval :=
  match o with
  | [] => JUndefined
  | (k', v) :: o' => if String.eqb k' k then v else getProp o' k
  end.

(** [o[k] = v]: an existing property keeps its place, a new one is added
    last. *)
Fixpoint setProp (o : jsobject) (k : string) (v : jsval) : jsobject :=
  match o with
  | [] => [(k, v)]
  | (k', v') :: o' =>
      if String.eqb k' k then (k', v) :: o' else (k', v') :: setProp o' k v
  end.

(** A thrown value: an [RxError] built by [newRxError(code, parameters)], or
    a plain [Error] (a [TypeError] included). *)
Inductive exn :=
| RxError (code : string) (parameters : jsobject)
| JsError (name message : string).

(** A call that returns a value or throws. *)
Inductive result (A : Type) :=
| Ok (a : A)
| Throw (e : exn).
Arguments Ok {A} a.
Arguments Throw {A} e.

(** ** Helpers of the replication test suite (test/unit/replication-graphql.test.ts) *)

Module ReplicationTest.

(** [const batchSize = 5]. *)
Definition batchSize : nat := 5.

(** [const getTimestamp = () => Math.round(new Date().getTime() / 1000)],
    with the clock reading [nowMs] (milliseconds since the epoch) passed
    in.  For [x >= 0], [Math.round(x)] is [floor(x + 1/2)], and
    [floor(nowMs / 1000 + 1/2) = floor((nowMs + 500) / 1000)]. *)
Definition getTimestamp (nowMs : nat) : nat := (nowMs + 500) / 1000.

(** The characters of the template literals. *)
Definition NL : string := String "010"%char EmptyString.
Definition QUOTE : string := String "034"%char EmptyString.

Fixpoint spaces (n : nat) : string :=
  match n with
  | 0 => EmptyString
  | S n' => String " " (spaces n')
  end.

(** [`${n}`] for an integer [n >= 0]: its decimal digits. *)
Definition numberToString (n : nat) : string := NilZero.string_of_uint (Nat.to_uint n).

(** The last pulled document, as far as the query builder reads it. *)
Record pullDoc := mkPullDoc { id : string; updatedAt : nat }.

Record graphQLQuery := mkGraphQLQuery { query : string; variables : jsobject }.

(** The pull query builder: a missing document is replaced by
    [{id: '', updatedAt: 0}], then both fields are spliced into the
    feed query as written in the template literal. *)
Definition queryBuilder (doc : option pullDoc) : graphQLQuery :=
  let doc := match doc with
             | None => mkPullDoc "" 0
             | Some d => d
             end in
  let query :=
    "{" ++ NL ++
    spaces 12 ++ "feedForRxDBReplication(lastId: " ++ QUOTE ++ id doc ++ QUOTE ++
      ", minUpdatedAt: " ++ numberToString (updatedAt doc) ++
      ", limit: " ++ numberToString batchSize ++ ") {" ++ NL ++
    spaces 16 ++ "id" ++ NL ++
    spaces 16 ++ "name" ++ NL ++
    spaces 16 ++ "age" ++ NL ++
    spaces 16 ++ "updatedAt" ++ NL ++
    spaces 16 ++ "deleted" ++ NL ++
    spaces 12 ++ "}" ++ NL ++
    spaces 8 ++ "}" in
  mkGraphQLQuery query [].

(** [getTestData(amount)]: [amount] calls of the random generator
    [schemaObjects.humanWithTimestamp()], each result getting
    [doc['deleted'] = false].  The generator is the sequence [gen] of the
    results of its successive calls, [calls] of which were made before. *)
Definition getTestData (gen : nat -> jsobject) (calls amount : nat) : list jsobject * nat :=
  (map (fun doc => setProp doc "deleted" (JBool false))
       (map (fun i => gen (calls + i)) (seq 0 amount)),
   calls + amount).

End ReplicationTest.

(** ** Collection hooks of the dev-mode plugin (plugins/dev-mode/index.js) *)

(** The checks the hooks import from the plugin's other modules
    ([unallowed-properties], [check-orm], [check-migration-strategies]);
    each returns the value it throws, if any. *)
Class DevModeChecks := {
  ensureCollectionNameValid : jsobject -> option exn;
  checkOrmMethods : jsval -> option exn;
  checkMigrationStrategies : jsval -> jsval -> option exn
}.

(** [args.name.charAt(0)]: the first character, [''] for the empty string;
    on a value that is not a string it throws a [TypeError]. *)
Definition charAt0 (v : jsval) : result string :=
  match v with
  | JStr s => Ok (substring 0 1 s)
  | JUndefined | JNull =>
      Throw (JsError "TypeError" "Cannot read properties of undefined (reading 'charAt')")
  | _ => Throw (JsError "TypeError" "args.name.charAt is not a function")
  end.

Section DevMode.
Context `{DevModeChecks}.

(** [hooks.preCreateRxCollection]. *)
Definition preCreateRxCollection (args : jsobject) : result unit :=
  match ensureCollectionNameValid args with
  | Some e => Throw e
  | None =>
      match charAt0 (getProp args "name") with
      | Throw e => Throw e
      | Ok c =>
          if String.eqb c "_"
          then Throw (RxError "DB2" [("name", getProp args "name")])
          else if negb (truthy (getProp args "schema"))
          then Throw (RxError "DB4" [("name", getProp args "name"); ("args", JObj args)])
          else Ok tt
      end
  end.


End DevMode.

(** ** Event reduce (event-reduce.js) *)

(** The parts of [rxQuery.toJSON()] the module reads: [sort] is absent or
    an array of one-key objects such as [{age: 'asc'}]. *)
Record queryJson := mkQueryJson {
  selector : jsval;
  sort : option (list jsobject);
  skip : jsval;
  limit : jsval
}.

(** An [RxQuery] as the module sees it: [rq_id] is the object's identity
    (the key of the [WeakMap]); [rq_resultsDataMap] is the object
    [rxQuery._resultsDataMap] itself, shared with the query. *)
Record rxQuery (D M : Type) := mkRxQuery {
  rq_id : nat;
  rq_primaryPath : string;
  rq_eventReduce : bool;
  rq_json : queryJson;
  rq_resultsData : list D;
  rq_resultsDataMap : M
}.
Arguments mkRxQuery {D M}.
Arguments rq_id {D M}.
Arguments rq_primaryPath {D M}.
Arguments rq_eventReduce {D M}.
Arguments rq_json {D M}.
Arguments rq_resultsData {D M}.
Arguments rq_resultsDataMap {D M}.

Definition setResultsDataMap {D M} (q : rxQuery D M) (m : M) : rxQuery D M :=
  mkRxQuery (rq_id q) (rq_primaryPath q) (rq_eventReduce q) (rq_json q) (rq_resultsData q) m.

Definition setResultsData {D M} (q : rxQuery D M) (r : list D) : rxQuery D M :=
  mkRxQuery (rq_id q) (rq_primaryPath q) (rq_eventReduce q) (rq_json q) r (rq_resultsDataMap q).

(** The object built by [getQueryParams]. *)
Record queryParams (D : Type) := mkQueryParams {
  primaryKey : string;
  qp_skip : jsval;
  qp_limit : jsval;
  sortFields : list jsval;
  sortComparator : D -> D -> Z;
  queryMatcher : D -> bool
}.
Arguments mkQueryParams {D}.
Arguments primaryKey {D}.
Arguments qp_skip {D}.
Arguments qp_limit {D}.
Arguments sortFields {D}.
Arguments sortComparator {D}.
Arguments queryMatcher {D}.

(** What the module imports: the storage instance's comparator and
    matcher, the plugin hooks [preSortComparator] and [preQueryMatcher]
    (which may replace the documents they are given), and [event-reduce-js]. *)
Class EventReduceEnv (D M Ev ER : Type) := {
  getSortComparator : queryJson -> D -> D -> Z;
  getQueryMatcher : queryJson -> D -> bool;
  preSortComparator : rxQuery D M -> D -> D -> D * D;
  preQueryMatcher : rxQuery D M -> D -> D;
  rxChangeEventToEventReduceChangeEvent : Ev -> ER;
  calculateActionName : queryParams D -> ER -> list D -> M -> string;
  runAction : string -> queryParams D -> ER -> list D -> M -> list D * M
}.

(** [getSortFieldsOfQuery(primaryKey, query)]: [Object.keys(part)[0]] is
    the first key of the part, [undefined] for an empty object. *)
Definition getSortFieldsOfQuery (primaryKey : string) (query : queryJson) : list jsval :=
  match sort query with
  | None | Some [] => [JStr primaryKey]
  | Some parts =>
      map (fun part => match part with
                       | [] => JUndefined
                       | (k, _) :: _ => JStr k
                       end) parts
  end.

(** [RXQUERY_QUERY_PARAMS_CACHE], a [WeakMap] keyed by query identity. *)
Definition paramsCache (D : Type) := list (nat * queryParams D).

Fixpoint cacheGet {D} (c : paramsCache D) (k : nat) : option (queryParams D) :=
  match c with
  | [] => None
  | (k', p) :: c' => if Nat.eqb k' k then Some p else cacheGet c' k
  end.

(** The result object of [calculateNewResults]. *)
Inductive calcResult (D : Type) :=
| RunFullQueryAgain
| Reduced (changed : bool) (newResults : list D).
Arguments RunFullQueryAgain {D}.
Arguments Reduced {D}.

Section EventReduce.
Context {D M Ev ER : Type} `{EventReduceEnv D M Ev ER}.

(** [getQueryParams(rxQuery)], threading the cache. *)
Definition getQueryParams (cache : paramsCache D) (q : rxQuery D M)
  : paramsCache D * queryParams D :=
  match cacheGet cache (rq_id q) with
  | Some p => (cache, p)
  | None =>
      let queryJson := rq_json q in
      let primaryKey := rq_primaryPath q in
      let sc := getSortComparator queryJson in
      let useSortComparator docA docB :=
        let '(a, b) := preSortComparator q docA docB in sc a b in
      let qm := getQueryMatcher queryJson in
      let useQueryMatcher doc := qm (preQueryMatcher q doc) in
      let ret := mkQueryParams (rq_primaryPath q) (skip queryJson) (limit queryJson)
                   (getSortFieldsOfQuery primaryKey queryJson)
                   useSortComparator useQueryMatcher in
      ((rq_id q, ret) :: cache, ret)
  end.

(** The [rxChangeEvents.find] of [calculateNewResults]: the callback runs
    on each event in turn against [previousResults] and the shared
    [previousResultsMap], until one is found non-optimizable. *)
Fixpoint findNonOptimizeable (params : queryParams D) (evs : list Ev)
    (previousResults : list D) (previousResultsMap : M) (changed : bool)
  : option Ev * list D * M * bool :=
  match evs with
  | [] => (None, previousResults, previousResultsMap, changed)
  | cE :: evs' =>
      let eventReduceEvent := rxChangeEventToEventReduceChangeEvent cE in
      let actionName := calculateActionName params eventReduceEvent
                          previousResults previousResultsMap in
      if String.eqb actionName "runFullQueryAgain"
      then (Some cE, previousResults, previousResultsMap, changed)
      else if negb (String.eqb actionName "doNothing")
      then let '(r, m) := runAction actionName params eventReduceEvent
                            previousResults previousResultsMap in
           findNonOptimizeable params evs' r m true
      else findNonOptimizeable params evs' previousResults previousResultsMap changed
  end.

(** [calculateNewResults(rxQuery, rxChangeEvents)]: returns the cache, the
    query (its [_resultsDataMap] is the object the actions mutated) and the
    result object. *)
Definition calculateNewResults (cache : paramsCache D) (q : rxQuery D M) (evs : list Ev)
  : paramsCache D * rxQuery D M * calcResult D :=
  if negb (rq_eventReduce q) then (cache, q, RunFullQueryAgain) else
  let '(cache', queryParams) := getQueryParams cache q in
  let '(found, previousResults, previousResultsMap, changed) :=
    findNonOptimizeable queryParams evs (rq_resultsData q) (rq_resultsDataMap q) false in
  let q' := setResultsDataMap q previousResultsMap in
  match found with
  | Some _ => (cache', q', RunFullQueryAgain)
  | None => (cache', q', Reduced changed previousResults)
  end.

End EventReduce.

(** A concrete environment: documents, events and map entries are numbers;
    event [0] is non-optimizable, event [1] changes nothing, any other
    event is appended to the results and recorded in the map. *)
#[export] Instance exampleEventReduce : EventReduceEnv nat (list nat) nat nat := {
  getSortComparator _ a b := (Z.of_nat a - Z.of_nat b)%Z;
  getQueryMatcher _ _ := true;
  preSortComparator _ a b := (a, b);
  preQueryMatcher _ d := d;
  rxChangeEventToEventReduceChangeEvent e := e;
  calculateActionName _ e _ _ :=
    if Nat.eqb e 0 then "runFullQueryAgain"
    else if Nat.eqb e 1 then "doNothing" else "insertLast";
  runAction _ _ e r m := (app r [e], e :: m)
}.

Definition exampleQuery : rxQuery nat (list nat) :=
  mkRxQuery 7 "id" true (mkQueryJson JUndefined None JUndefined JUndefined) [] [].

Definition exampleCalculateNewResults :=
  @calculateNewResults nat (list nat) nat nat exampleEventReduce.

Definition exampleGetQueryParams :=
  @getQueryParams nat (list nat) nat nat exampleEventReduce.

(** * Properties *)

(** ** String lemmas *)

Lemma str_length_app (a b : string) :
  String.length (a ++ b) = String.length a + String.length b.
Proof. induction a as [|c a IH]; simpl; auto. Qed.

Lemma str_app_assoc (a b c : string) : (a ++ b) ++ c = a ++ (b ++ c).
Proof. induction a as [|x a IH]; simpl; congruence. Qed.

Lemma substring_app_skip (a b : string) (m : nat) :
  substring (String.length a) m (a ++ b) = substring 0 m b.
Proof.
  induction a as [|c a IH]; simpl; [reflexivity|].
  destruct m; exact IH.
Qed.

Lemma substring_whole (b : string) : substring 0 (String.length b) b = b.
Proof. induction b as [|c b IH]; simpl; congruence. Qed.

Lemma str_app_cancel_r (x y z : string) :
  String.length x = String.length y -> x ++ z = y ++ z -> x = y.
Proof.
  revert y. induction x as [|c x IH]; intros [|d y] Hl Heq; simpl in *;
    try discriminate; auto.
  injection Heq as -> Heq. f_equal. apply IH; auto.
Qed.

Lemma str_app_cancel_l (x y z : string) : x ++ y = x ++ z -> y = z.
Proof. induction x as [|c x IH]; simpl; auto. intros H. injection H. auto. Qed.

Lemma prefix_app (a b : string) : String.prefix a (a ++ b) = true.
Proof.
  induction a as [|c a IH]; simpl.
  - destruct b; reflexivity.
  - destruct (Ascii.ascii_dec c c) as [_|n]; [exact IH|congruence].
Qed.

(** [endsWith] recognises exactly the strings ending in the suffix. *)
Lemma endsWith_app (pre suf : string) : endsWith suf (pre ++ suf) = true.
Proof.
  unfold endsWith. rewrite str_length_app.
  replace (String.length pre + String.length suf - String.length suf)
    with (String.length pre) by lia.
  rewrite substring_app_skip, substring_whole. apply String.eqb_refl.
Qed.

Lemma endsWith_same_length (pre x y : string) :
  String.length x = String.length y ->
  endsWith y (pre ++ x) = true -> x = y.
Proof.
  unfold endsWith. rewrite str_length_app. intros Hl H.
  replace (String.length pre + String.length x - String.length y)
    with (String.length pre) in H by lia.
  rewrite substring_app_skip, <- Hl, substring_whole in H.
  apply String.eqb_eq in H. exact H.
Qed.

Lemma endpoint_eq (E E' : endpoint) : endpointHash E = endpointHash E' -> E = E'.
Proof.
  destruct E as [h w], E' as [h' w']; simpl. intros ->.
  f_equal. apply UIP_dec, Nat.eq_dec.
Qed.

(** ** C1: echo tagger *)

(** The tag of a marker is what [wasTaggedBy] looks for. *)
Lemma tagRevision_suffix (hash : string -> string) (E : endpoint) (c : content) :
  tagRevision hash E c =
  (hash (endpointHash E ++ serialize c) ++ "-") ++
  (endpointHash E ++ GRAPHQL_REPLICATION_PLUGIN_IDENT).
Proof. unfold tagRevision. rewrite str_app_assoc. reflexivity. Qed.

Lemma wasTaggedBy_tagRevision (hash : string -> string) (E : endpoint)
    (c : content) : wasTaggedBy E (tagRevision hash E c) = true.
Proof. unfold wasTaggedBy. rewrite tagRevision_suffix. apply endsWith_app. Qed.

Lemma wasTaggedBy_tagRevision_other (hash : string -> string)
    (E E' : endpoint) (c : content) :
  E <> E' -> wasTaggedBy E' (tagRevision hash E c) = false.
Proof.
  intros Hne. unfold wasTaggedBy. rewrite tagRevision_suffix.
  destruct (endsWith _ _) eqn:H; [exfalso|reflexivity].
  apply endsWith_same_length in H.
  - apply Hne, endpoint_eq. eapply str_app_cancel_r; [|exact H].
    rewrite !endpointHash_width. reflexivity.
  - rewrite !str_length_app, !endpointHash_width. reflexivity.
Qed.

(** C1: for every endpoint [E] and content [C], the marker [tagRevision E C]
    is recognised by [wasTaggedBy E] (round trip), equal inputs give equal
    markers (determinism), and for a distinct endpoint [E'] the marker is
    not recognised by [wasTaggedBy E'], so the markers of two distinct
    endpoints for the same content differ. *)
Theorem C1_echo_tagger (hash : string -> string) (E E' : endpoint)
    (C C' : content) (Hne : E <> E') :
  wasTaggedBy E (tagRevision hash E C) = true /\
  (C' = C -> tagRevision hash E C' = tagRevision hash E C) /\
  wasTaggedBy E' (tagRevision hash E C) = false /\
  tagRevision hash E C <> tagRevision hash E' C.
Proof.
  split; [apply wasTaggedBy_tagRevision|].
  split; [intros ->; reflexivity|].
  split; [apply wasTaggedBy_tagRevision_other; exact Hne|].
  intros Heq.
  pose proof (wasTaggedBy_tagRevision_other hash E E' C Hne) as H.
  rewrite Heq, wasTaggedBy_tagRevision in H. discriminate.
Qed.

(** ** Local store lemmas *)

Lemma get_upsert (st : store) (id k : string) (d : doc) :
  get (upsert st id d) k = if String.eqb id k then Some d else get st k.
Proof. reflexivity. Qed.

Lemma checkpointId_eqb (E E' : endpoint) :
  String.eqb (checkpointId E) (checkpointId E') =
  String.eqb (endpointHash E) (endpointHash E').
Proof.
  unfold checkpointId.
  destruct (String.eqb_spec (endpointHash E) (endpointHash E')) as [->|Hne].
  - apply String.eqb_refl.
  - apply String.eqb_neq. intros H. apply Hne. eapply str_app_cancel_l; exact H.
Qed.

Lemma getLastPushSequence_setPush (st : store) (E E' : endpoint) (n : nat) :
  getLastPushSequence (setLastPushSequence st E n) E' =
  if String.eqb (endpointHash E) (endpointHash E') then n
  else getLastPushSequence st E'.
Proof.
  unfold getLastPushSequence at 1, setLastPushSequence.
  rewrite get_upsert, checkpointId_eqb.
  destruct (String.eqb _ _); reflexivity.
Qed.

Lemma getLastPushSequence_setPull (st : store) (E E' : endpoint) (c : cursor) :
  getLastPushSequence (setLastPullDocument st E c) E' =
  getLastPushSequence st E'.
Proof.
  unfold getLastPushSequence at 1, setLastPullDocument.
  rewrite get_upsert, checkpointId_eqb.
  destruct (String.eqb_spec (endpointHash E) (endpointHash E')) as [H|H].
  - apply endpoint_eq in H. subst. reflexivity.
  - reflexivity.
Qed.

Lemma getLastPullDocument_setPull (st : store) (E E' : endpoint) (c : cursor) :
  getLastPullDocument (setLastPullDocument st E c) E' =
  if String.eqb (endpointHash E) (endpointHash E') then Some c
  else getLastPullDocument st E'.
Proof.
  unfold getLastPullDocument at 1, setLastPullDocument.
  rewrite get_upsert, checkpointId_eqb.
  destruct (String.eqb _ _); reflexivity.
Qed.

Lemma getLastPullDocument_setPush (st : store) (E E' : endpoint) (n : nat) :
  getLastPullDocument (setLastPushSequence st E n) E' =
  getLastPullDocument st E'.
Proof.
  unfold getLastPullDocument at 1, setLastPushSequence.
  rewrite get_upsert, checkpointId_eqb.
  destruct (String.eqb_spec (endpointHash E) (endpointHash E')) as [H|H].
  - apply endpoint_eq in H. subst. reflexivity.
  - reflexivity.
Qed.

Lemma run_checkpoint_calls_push (ops : list checkpoint_call) :
  forall (st : store) (E : endpoint),
  getLastPushSequence (run_checkpoint_calls st ops) E =
  match lastPushSet E ops with
  | Some n => n
  | None => getLastPushSequence st E
  end.
Proof.
  induction ops as [|op rest IH]; intros st E; [reflexivity|].
  unfold run_checkpoint_calls in *. simpl. rewrite IH.
  destruct (lastPushSet E rest) as [n|]; [reflexivity|].
  destruct op as [E' n|E' c]; simpl.
  - rewrite getLastPushSequence_setPush.
    destruct (String.eqb _ _); reflexivity.
  - apply getLastPushSequence_setPull.
Qed.

Lemma run_checkpoint_calls_pull (ops : list checkpoint_call) :
  forall (st : store) (E : endpoint),
  getLastPullDocument (run_checkpoint_calls st ops) E =
  match lastPullSet E ops with
  | Some c => Some c
  | None => getLastPullDocument st E
  end.
Proof.
  induction ops as [|op rest IH]; intros st E; [reflexivity|].
  unfold run_checkpoint_calls in *. simpl. rewrite IH.
  destruct (lastPullSet E rest) as [c|]; [reflexivity|].
  destruct op as [E' n|E' c]; simpl.
  - apply getLastPullDocument_setPush.
  - rewrite getLastPullDocument_setPull.
    destruct (String.eqb _ _); reflexivity.
Qed.

(** C8: on an endpoint whose checkpoint document was never written, the
    push checkpoint is 0 and the pull checkpoint is null; after any sequence
    of setter calls, each getter returns the value of the most recent
    corresponding setter call for that endpoint (the default when there was
    none). *)
Theorem C8_checkpoint_store (st : store) (ops : list checkpoint_call)
    (E : endpoint) (Hnew : get st (checkpointId E) = None) :
  getLastPushSequence st E = 0 /\
  getLastPullDocument st E = None /\
  getLastPushSequence (run_checkpoint_calls st ops) E =
    match lastPushSet E ops with Some n => n | None => 0 end /\
  getLastPullDocument (run_checkpoint_calls st ops) E = lastPullSet E ops.
Proof.
  assert (H0 : getLastPushSequence st E = 0)
    by (unfold getLastPushSequence; rewrite Hnew; reflexivity).
  assert (H1 : getLastPullDocument st E = None)
    by (unfold getLastPullDocument; rewrite Hnew; reflexivity).
  repeat split; auto.
  - rewrite run_checkpoint_calls_push, H0. reflexivity.
  - rewrite run_checkpoint_calls_pull, H1. destruct (lastPullSet E ops); reflexivity.
Qed.

(** ** The change scan *)

Section ChangeScan.

Variable E : endpoint.
Variable st : store.

(** An entry the scan may hold: the newest state of a user document that
    was not tagged by the endpoint. *)
Definition scanEntryOk (e : changedDoc) : Prop :=
  get st (fst e) = Some (snd e) /\ isCheckpointId (fst e) = false /\
  wasTaggedBy E (_rev (snd e)) = false.

Definition scanInv (acc : list changedDoc) : Prop :=
  NoDup (map fst acc) /\ Forall scanEntryOk acc.

(** A change record the scan must report. *)
Definition eligible (c : change) (d : doc) : Prop :=
  isCheckpointId (change_id c) = false /\ get st (change_id c) = Some d /\
  wasTaggedBy E (_rev d) = false.

Lemma existsb_key (acc : list changedDoc) (id : string) :
  existsb (fun e => String.eqb (fst e) id) acc = true <-> In id (map fst acc).
Proof.
  rewrite existsb_exists, in_map_iff. split.
  - intros [e [Hin Heq]]. apply String.eqb_eq in Heq. eauto.
  - intros [e [Heq Hin]]. exists e. split; auto. apply String.eqb_eq. auto.
Qed.

Lemma coalesceChange_cases (acc : list changedDoc) (c : change) :
  coalesceChange E st acc c = acc \/
  (exists d, coalesceChange E st acc c = app acc [(change_id c, d)] /\
             ~ In (change_id c) (map fst acc) /\ eligible c d).
Proof.
  unfold coalesceChange.
  destruct (existsb (fun e => String.eqb (fst e) (change_id c)) acc) eqn:Hex;
    [left; reflexivity|].
  destruct (isCheckpointId (change_id c)) eqn:Hcp; [left; reflexivity|].
  destruct (get st (change_id c)) as [d|] eqn:Hg; [|left; reflexivity].
  destruct (wasTaggedBy E (_rev d)) eqn:Ht; [left; reflexivity|].
  right. exists d. repeat split; auto.
  intros Hin. apply existsb_key in Hin. congruence.
Qed.

Lemma coalesceChange_inv (acc : list changedDoc) (c : change) :
  scanInv acc -> scanInv (coalesceChange E st acc c).
Proof.
  intros [Hnd Hall].
  destruct (coalesceChange_cases acc c) as [->|[d [-> [Hnin [Hcp [Hg Ht]]]]]].
  - split; auto.
  - split.
    + rewrite map_app. simpl. apply NoDup_app; auto.
      * constructor; [auto|constructor].
      * intros x Hx Hy. simpl in Hy. destruct Hy as [<-|[]]. auto.
    + apply Forall_app. split; auto. constructor; [|constructor].
      unfold scanEntryOk. simpl. auto.
Qed.

Lemma coalesceChange_mono (acc : list changedDoc) (c : change) (e : changedDoc) :
  In e acc -> In e (coalesceChange E st acc c).
Proof.
  intros Hin.
  destruct (coalesceChange_cases acc c) as [->|[d [-> _]]]; auto.
  apply in_or_app. auto.
Qed.

Lemma coalesceChange_length (acc : list changedDoc) (c : change) :
  length (coalesceChange E st acc c) <= S (length acc).
Proof.
  destruct (coalesceChange_cases acc c) as [->|[d [-> _]]]; [lia|].
  rewrite length_app. simpl. lia.
Qed.

(** The record just scanned is reported when it is eligible. *)
Lemma coalesceChange_covers (acc : list changedDoc) (c : change) (d : doc) :
  scanInv acc -> eligible c d -> In (change_id c, d) (coalesceChange E st acc c).
Proof.
  intros [Hnd Hall] Hel.
  destruct (coalesceChange_cases acc c) as [Heq|[d' [-> [_ [_ [Hg _]]]]]].
  - rewrite Heq. unfold coalesceChange in Heq.
    destruct Hel as [Hcp [Hg Ht]].
    destruct (existsb (fun e => String.eqb (fst e) (change_id c)) acc) eqn:Hex.
    + apply existsb_key, in_map_iff in Hex. destruct Hex as [[k d'] [Hk Hin]].
      simpl in Hk. subst k.
      rewrite Forall_forall in Hall. destruct (Hall _ Hin) as [Hg' _].
      simpl in Hg'. rewrite Hg in Hg'. injection Hg' as ->. exact Hin.
    + rewrite Hcp, Hg, Ht in Heq. exfalso.
      apply (f_equal (@length _)) in Heq. rewrite length_app in Heq.
      simpl in Heq. lia.
  - destruct Hel as [_ [Hg' _]]. rewrite Hg in Hg'. injection Hg' as ->.
    apply in_or_app. right. left. reflexivity.
Qed.

Lemma coalesce_fold (rows : list change) :
  forall acc, scanInv acc ->
  scanInv (fold_left (coalesceChange E st) rows acc) /\
  (forall e, In e acc -> In e (fold_left (coalesceChange E st) rows acc)) /\
  length (fold_left (coalesceChange E st) rows acc) <= length acc + length rows /\
  (forall c d, In c rows -> eligible c d ->
     In (change_id c, d) (fold_left (coalesceChange E st) rows acc)).
Proof.
  induction rows as [|c rows IH]; intros acc Hinv; simpl.
  - repeat split; auto; [apply Hinv|apply Hinv|lia|intros _ _ []].
  - pose proof (coalesceChange_inv acc c Hinv) as Hinv'.
    destruct (IH _ Hinv') as [Hi [Hm [Hl Hc]]].
    repeat split.
    + apply Hi.
    + apply Hi.
    + intros e He. apply Hm, coalesceChange_mono, He.
    + pose proof (coalesceChange_length acc c). lia.
    + intros c' d [<-|Hin] Hel.
      * apply Hm, coalesceChange_covers; auto.
      * apply Hc; auto.
Qed.

Lemma fold_max_ge (rows : list change) :
  forall m, m <= fold_left (fun m c => Nat.max m (sequence c)) rows m /\
  (forall c, In c rows -> sequence c <= fold_left (fun m c => Nat.max m (sequence c)) rows m).
Proof.
  induction rows as [|c rows IH]; intros m; simpl.
  - split; [lia|intros _ []].
  - destruct (IH (Nat.max m (sequence c))) as [H1 H2]. split; [lia|].
    intros c' [<-|Hin]; [lia|auto].
Qed.

Lemma changesSince_length (since limit : nat) :
  length (changesSince st since limit) <= limit.
Proof. unfold changesSince. rewrite length_firstn. lia. Qed.

End ChangeScan.

Lemma scan_facts (st : store) (E : endpoint) (limit : nat) :
  let res := getChangesSinceLastPushSequence st E limit in
  let rows := changesSince st (getLastPushSequence st E) limit in
  scanInv E st (changedDocs res) /\
  length (changedDocs res) <= limit /\
  (forall c d, In c rows -> eligible E st c d ->
     In (change_id c, d) (changedDocs res)) /\
  getLastPushSequence st E <= lastSequence res /\
  (forall c, In c rows -> sequence c <= lastSequence res).
Proof.
  simpl. unfold getChangesSinceLastPushSequence. simpl.
  set (rows := changesSince st (getLastPushSequence st E) limit).
  assert (H0 : scanInv E st []) by (split; constructor).
  destruct (coalesce_fold E st rows [] H0) as [Hi [_ [Hl Hc]]].
  destruct (fold_max_ge rows (getLastPushSequence st E)) as [Hm1 Hm2].
  pose proof (changesSince_length st (getLastPushSequence st E) limit).
  fold rows in H. simpl in Hl.
  repeat split; auto; try apply Hi; lia.
Qed.

(** C2: the push cycle's change scan never reports a checkpoint document
    nor a document whose current revision was tagged by the endpoint (in
    particular a document whose current state was written by a pull from
    that endpoint), while the returned last sequence is at least the push
    checkpoint and covers every change record read, excluded ones
    included. *)
Theorem C2_push_scan_echo_suppression (hash : string -> string)
    (st : store) (E : endpoint) (limit : nat) :
  let res := getChangesSinceLastPushSequence st E limit in
  (forall k d, In (k, d) (changedDocs res) ->
     isCheckpointId k = false /\ wasTaggedBy E (_rev d) = false) /\
  (forall k r, get st k = Some (pulledDoc hash E r) ->
     ~ In k (map fst (changedDocs res))) /\
  getLastPushSequence st E <= lastSequence res /\
  (forall c, In c (changesSince st (getLastPushSequence st E) limit) ->
     sequence c <= lastSequence res).
Proof.
  intros res.
  destruct (scan_facts st E limit) as [[_ Hall] [_ [_ [Hge Hseq]]]].
  fold res in Hall, Hge, Hseq.
  rewrite Forall_forall in Hall.
  split; [|split; [|split; auto]].
  - intros k d Hin. destruct (Hall _ Hin) as [_ [Hcp Ht]]. auto.
  - intros k r Hg Hin. apply in_map_iff in Hin.
    destruct Hin as [[k' d] [Hk Hin]]. simpl in Hk. subst k'.
    destruct (Hall _ Hin) as [Hg' [_ Ht]]. simpl in Hg', Ht.
    rewrite Hg in Hg'. injection Hg' as <-.
    unfold pulledDoc in Ht. simpl in Ht.
    rewrite wasTaggedBy_tagRevision in Ht. discriminate.
Qed.

(** C7: the change scan returns at most [limit] entries, one per primary
    key; each holds the newest state of its document (its deletion flag
    included), and every user document changed in the records read and not
    tagged by the endpoint has its entry. *)
Theorem C7_push_scan_coalesced (st : store) (E : endpoint) (limit : nat) :
  let res := getChangesSinceLastPushSequence st E limit in
  length (changedDocs res) <= limit /\
  NoDup (map fst (changedDocs res)) /\
  (forall k d, In (k, d) (changedDocs res) ->
     get st k = Some d /\ findLatest (st_log st) k = Some d) /\
  (forall c d, In c (changesSince st (getLastPushSequence st E) limit) ->
     isCheckpointId (change_id c) = false ->
     get st (change_id c) = Some d ->
     wasTaggedBy E (_rev d) = false ->
     In (change_id c, d) (changedDocs res)).
Proof.
  intros res.
  destruct (scan_facts st E limit) as [[Hnd Hall] [Hlen [Hcov _]]].
  fold res in Hnd, Hall, Hlen, Hcov.
  rewrite Forall_forall in Hall.
  split; [exact Hlen|]. split; [exact Hnd|]. split.
  - intros k d Hin. destruct (Hall _ Hin) as [Hg _]. auto.
  - intros c d Hin Hcp Hg Ht. apply Hcov; auto. repeat split; auto.
Qed.

(** ** Pull cycle: one page *)

Section PullPage.

Variable hash : string -> string.
Variable E : endpoint.
Variable cfg : pullOptions.

Lemma applyRows_events (rows : list row) :
  forall s, se_events (fold_left (applyRow hash E cfg) rows s) =
            app (se_events s) (flat_map (rowEvents cfg) rows).
Proof.
  induction rows as [|r rows IH]; intros s; simpl.
  - rewrite app_nil_r. reflexivity.
  - rewrite IH. unfold applyRow, rowEvents.
    destruct (pull_modifier cfg r) as [r'|]; simpl.
    + destruct (pull_validate cfg r'); simpl; rewrite <- app_assoc; reflexivity.
    + reflexivity.
Qed.

Lemma applyRows_store_indep (rows : list row) :
  forall s1 s2, se_store s1 = se_store s2 ->
  se_store (fold_left (applyRow hash E cfg) rows s1) =
  se_store (fold_left (applyRow hash E cfg) rows s2).
Proof.
  induction rows as [|r rows IH]; intros s1 s2 Heq; simpl; auto.
  apply IH. unfold applyRow.
  destruct (pull_modifier cfg r) as [r'|]; auto.
  destruct (pull_validate cfg r'); simpl; congruence.
Qed.

Lemma last_cons_default (l : list row) :
  forall (x d : row), last (x :: l) d = last l x.
Proof.
  induction l as [|y l IH]; intros x d; [reflexivity|].
  change (last (x :: y :: l) d) with (last (y :: l) d).
  rewrite !IH. reflexivity.
Qed.

Lemma lastRow_cons (l : list row) :
  forall x, lastRow (x :: l) = Some (last l x).
Proof.
  induction l as [|y l IH]; intros x; [reflexivity|].
  change (lastRow (x :: y :: l)) with (lastRow (y :: l)).
  rewrite IH, <- (last_cons_default l y x). reflexivity.
Qed.

Lemma lastRow_app_cons (pre post : list row) (r : row) :
  lastRow (app pre (r :: post)) = Some (last post r).
Proof.
  destruct pre as [|x pre]; [apply lastRow_cons|].
  change (app (x :: pre) (r :: post)) with (x :: app pre (r :: post)).
  rewrite lastRow_cons. f_equal. revert x.
  induction pre as [|y pre IH]; intros x; [apply last_cons_default|].
  change (app (y :: pre) (r :: post)) with (y :: app pre (r :: post)).
  rewrite last_cons_default. apply IH.
Qed.

Lemma pullPage_cursor (s : session) (page : list row) (r : row) :
  lastRow page = Some r ->
  getLastPullDocument (se_store (pullPage hash E cfg s page)) E =
  Some (cursorOf r).
Proof.
  intros H. unfold pullPage. rewrite H. simpl.
  rewrite getLastPullDocument_setPull, String.eqb_refl. reflexivity.
Qed.

End PullPage.

(** C9: a pulled row whose modified form fails validation yields exactly
    one event, a validation error for that row; it is not written (the
    store is the one obtained from the page without it); the other rows of
    the page are processed with their own events; the page still persists
    the cursor of its last row, and the pull loop goes on as for a page
    without invalid rows (the cycle does not fail). *)
Theorem C9_validation_failure_skips_row (hash : string -> string)
    (E : endpoint) (cfg : pullOptions) (tr : transport) (s : session)
    (pre post : list row) (r r' : row) (f n : nat)
    (Hmod : pull_modifier cfg r = Some r')
    (Hinvalid : pull_validate cfg r' = false)
    (Hreq : requestPull tr (getLastPullDocument (se_store s) E) =
            Some (app pre (r :: post))) :
  let page := app pre (r :: post) in
  rowEvents cfg r = [Error (ValidationError r')] /\
  se_store (fold_left (applyRow hash E cfg) page s) =
    se_store (fold_left (applyRow hash E cfg) (app pre post) s) /\
  se_events (fold_left (applyRow hash E cfg) page s) =
    app (se_events s) (app (flat_map (rowEvents cfg) pre)
      (Error (ValidationError r') :: flat_map (rowEvents cfg) post)) /\
  getLastPullDocument (se_store (pullPage hash E cfg s page)) E =
    Some (cursorOf (last post r)) /\
  pullLoop hash (S f) E cfg tr s n =
    (if Nat.eqb (length page) (pageSize cfg)
     then pullLoop hash f E cfg tr (pullPage hash E cfg s page) (S n)
     else (pullPage hash E cfg s page, S n, CycleDone)).
Proof.
  intros page.
  assert (Hev : rowEvents cfg r = [Error (ValidationError r')])
    by (unfold rowEvents; rewrite Hmod, Hinvalid; reflexivity).
  split; [exact Hev|]. split; [|split; [|split]].
  - unfold page. rewrite !fold_left_app. simpl.
    apply applyRows_store_indep. unfold applyRow.
    rewrite Hmod, Hinvalid. reflexivity.
  - unfold page. rewrite applyRows_events, flat_map_app. simpl.
    rewrite Hev. reflexivity.
  - apply pullPage_cursor. apply lastRow_app_cons.
  - simpl. rewrite Hreq. reflexivity.
Qed.

(** ** Rows of the remote feed *)

Lemma lastRow_app (l1 l2 : list row) :
  lastRow (app l1 l2) =
  match lastRow l2 with Some r => Some r | None => lastRow l1 end.
Proof.
  destruct l2 as [|r post].
  - rewrite app_nil_r. reflexivity.
  - rewrite lastRow_app_cons, lastRow_cons. reflexivity.
Qed.

Lemma ss_app_inv (l1 l2 : list row) :
  StronglySorted keyLt (app l1 l2) ->
  StronglySorted keyLt l1 /\ StronglySorted keyLt l2 /\
  (forall a b, In a l1 -> In b l2 -> keyLt a b).
Proof.
  induction l1 as [|x l1 IH]; simpl; intros H.
  - repeat split; auto; [constructor|intros _ _ []].
  - apply StronglySorted_inv in H. destruct H as [Hs Hf].
    destruct (IH Hs) as [H1 [H2 H3]].
    rewrite Forall_forall in Hf.
    repeat split; auto.
    + constructor; auto. apply Forall_forall. intros y Hy. apply Hf, in_or_app. auto.
    + intros a b [<-|Ha] Hb; auto. apply Hf, in_or_app. auto.
Qed.

Lemma ss_filter (f : row -> bool) (l : list row) :
  StronglySorted keyLt l -> StronglySorted keyLt (filter f l).
Proof.
  induction 1 as [|x l Hs IH Hf]; simpl; [constructor|].
  destruct (f x); auto. constructor; auto.
  rewrite Forall_forall in *. intros y Hy. apply filter_In in Hy. apply Hf, Hy.
Qed.

Lemma filter_implied (f g : row -> bool) (l : list row) :
  (forall r, In r l -> f r = true -> g r = true) ->
  filter f (filter g l) = filter f l.
Proof.
  induction l as [|x l IH]; intros H; simpl; [reflexivity|].
  destruct (g x) eqn:Hg; simpl.
  - destruct (f x); rewrite IH; auto; intros r Hr; apply H; simpl; auto.
  - destruct (f x) eqn:Hf.
    + rewrite (H x) in Hg; [discriminate|left; reflexivity|exact Hf].
    + apply IH. intros r Hr; apply H; simpl; auto.
Qed.

Lemma filter_none (f : row -> bool) (l : list row) :
  (forall r, In r l -> f r = false) -> filter f l = [].
Proof.
  induction l as [|x l IH]; intros H; simpl; [reflexivity|].
  rewrite H by (left; reflexivity). apply IH. intros r Hr. apply H. right. auto.
Qed.

Lemma filter_every (f : row -> bool) (l : list row) :
  (forall r, In r l -> f r = true) -> filter f l = l.
Proof.
  induction l as [|x l IH]; intros H; simpl; [reflexivity|].
  rewrite H by (left; reflexivity). f_equal. apply IH. intros r Hr. apply H. right. auto.
Qed.

(** After a full page ending in [x], the rows after [x] are the rows that
    followed the page. *)
Lemma rowsAfter_last_of_page (rem pre rest : list row) (x : row) (c : option cursor) :
  StronglySorted keyLt rem ->
  rowsAfter c rem = app pre (x :: rest) ->
  rowsAfter (Some (cursorOf x)) rem = rest.
Proof.
  intros Hs HR.
  assert (HxR : In x (rowsAfter c rem)) by (rewrite HR; apply in_or_app; simpl; auto).
  assert (Hss : StronglySorted keyLt (app pre (x :: rest)))
    by (rewrite <- HR; apply ss_filter, Hs).
  apply ss_app_inv in Hss. destruct Hss as [_ [Hxr Hlt]].
  apply StronglySorted_inv in Hxr. destruct Hxr as [_ Hxr].
  rewrite Forall_forall in Hxr.
  unfold rowsAfter at 1.
  rewrite <- (filter_implied _ (fun r => match c with
                                         | None => true
                                         | Some k => Nat.ltb k (row_key r) end)).
  - fold (rowsAfter c rem). rewrite HR, filter_app. simpl.
    rewrite Nat.ltb_irrefl.
    rewrite filter_none, filter_every; auto.
    + intros r Hr. apply Nat.ltb_lt, Hxr, Hr.
    + intros r Hr. apply Nat.ltb_ge. unfold cursorOf.
      assert (keyLt r x) by (apply Hlt; simpl; auto). unfold keyLt in *. lia.
  - intros r _ Hr. destruct c as [k|]; auto.
    apply filter_In in HxR. destruct HxR as [_ Hk].
    apply Nat.ltb_lt in Hk, Hr. unfold cursorOf in Hr. apply Nat.ltb_lt. lia.
Qed.

Lemma latestRowFor_app (k : string) (l1 l2 : list row) :
  latestRowFor k (app l1 l2) =
  match latestRowFor k l2 with Some r => Some r | None => latestRowFor k l1 end.
Proof. unfold latestRowFor. rewrite filter_app, lastRow_app. reflexivity. Qed.

Lemma latestRowFor_cons (k : string) (r : row) (rows : list row) :
  latestRowFor k (r :: rows) =
  match latestRowFor k rows with
  | Some x => Some x
  | None => if String.eqb (row_id r) k then Some r else None
  end.
Proof.
  change (r :: rows) with (app [r] rows). rewrite latestRowFor_app.
  destruct (latestRowFor k rows); [reflexivity|].
  unfold latestRowFor. simpl. destruct (String.eqb (row_id r) k); reflexivity.
Qed.

Lemma checkpointId_isCheckpoint (E : endpoint) : isCheckpointId (checkpointId E) = true.
Proof. apply prefix_app. Qed.

Lemma get_setPull_other (st : store) (E : endpoint) (c : cursor) (k : string) :
  isCheckpointId k = false ->
  get (setLastPullDocument st E c) k = get st k.
Proof.
  intros Hk. unfold setLastPullDocument. rewrite get_upsert.
  destruct (String.eqb_spec (checkpointId E) k) as [<-|_]; [|reflexivity].
  rewrite checkpointId_isCheckpoint in Hk. discriminate.
Qed.

Lemma get_setPush_other (st : store) (E : endpoint) (n : nat) (k : string) :
  isCheckpointId k = false ->
  get (setLastPushSequence st E n) k = get st k.
Proof.
  intros Hk. unfold setLastPushSequence. rewrite get_upsert.
  destruct (String.eqb_spec (checkpointId E) k) as [<-|_]; [|reflexivity].
  rewrite checkpointId_isCheckpoint in Hk. discriminate.
Qed.

(** ** Pull cycle against the feed *)

Section PullFromFeed.

Variable hash : string -> string.
Variable E : endpoint.
Variable cfg : pullOptions.

(** Every row is kept by the modifier and passes validation. *)
Definition accepted (r : row) : Prop :=
  pull_modifier cfg r = Some r /\ pull_validate cfg r = true.

Lemma applyRows_accepted (rows : list row) :
  Forall accepted rows -> forall s,
  se_events (fold_left (applyRow hash E cfg) rows s) =
    app (se_events s) (map Received rows) /\
  (forall k, get (se_store (fold_left (applyRow hash E cfg) rows s)) k =
     match latestRowFor k rows with
     | Some r => Some (pulledDoc hash E r)
     | None => get (se_store s) k
     end).
Proof.
  induction 1 as [|r rows [Hm Hv] Hall IH]; intros s; cbn [fold_left map].
  - rewrite app_nil_r. split; reflexivity.
  - destruct (IH (applyRow hash E cfg s r)) as [He Hg].
    assert (Happ : applyRow hash E cfg s r =
      mkSession (upsert (se_store s) (row_id r) (pulledDoc hash E r))
                (app (se_events s) [Received r]))
      by (unfold applyRow; rewrite Hm, Hv; reflexivity).
    rewrite Happ in *. simpl in He, Hg.
    split.
    + rewrite He, <- app_assoc. reflexivity.
    + intros k. rewrite Hg, latestRowFor_cons, get_upsert.
      destruct (latestRowFor k rows); [reflexivity|].
      destruct (String.eqb (row_id r) k); reflexivity.
Qed.

Lemma pullPage_accepted (page : list row) (s : session) :
  Forall accepted page ->
  se_events (pullPage hash E cfg s page) = app (se_events s) (map Received page) /\
  getLastPullDocument (se_store (pullPage hash E cfg s page)) E =
    match lastRow page with
    | Some r => Some (cursorOf r)
    | None => getLastPullDocument (se_store s) E
    end /\
  (forall k, isCheckpointId k = false ->
     get (se_store (pullPage hash E cfg s page)) k =
     match latestRowFor k page with
     | Some r => Some (pulledDoc hash E r)
     | None => get (se_store s) k
     end).
Proof.
  intros Hall. destruct (applyRows_accepted page Hall s) as [He Hg].
  unfold pullPage. destruct (lastRow page) as [x|] eqn:Hl; simpl.
  - split; [exact He|]. split.
    + rewrite getLastPullDocument_setPull, String.eqb_refl. reflexivity.
    + intros k Hk. rewrite get_setPull_other by exact Hk. apply Hg.
  - split; [exact He|]. split.
    + destruct page; [reflexivity|]. rewrite lastRow_cons in Hl. discriminate.
    + intros k _. apply Hg.
Qed.

Variable rem : list row.
Hypothesis Hsorted : StronglySorted keyLt rem.
Hypothesis Haccepted : Forall accepted rem.
Hypothesis HpageSize : 0 < pageSize cfg.

Lemma rowsAfter_accepted (c : option cursor) : Forall accepted (rowsAfter c rem).
Proof.
  rewrite Forall_forall in *. intros r Hr. apply filter_In in Hr. apply Haccepted, Hr.
Qed.

Lemma pullLoop_feed (fuel : nat) :
  forall s n,
  let R := rowsAfter (getLastPullDocument (se_store s) E) rem in
  length R / pageSize cfg < fuel ->
  exists s',
    pullLoop hash fuel E cfg (serverTransport rem (pageSize cfg)) s n =
      (s', n + length R / pageSize cfg + 1, CycleDone) /\
    se_events s' = app (se_events s) (map Received R) /\
    getLastPullDocument (se_store s') E =
      match lastRow R with
      | Some r => Some (cursorOf r)
      | None => getLastPullDocument (se_store s) E
      end /\
    (forall k, isCheckpointId k = false ->
       get (se_store s') k =
       match latestRowFor k R with
       | Some r => Some (pulledDoc hash E r)
       | None => get (se_store s) k
       end).
Proof.
  set (P := pageSize cfg) in *.
  induction fuel as [|f IH]; intros s n R Hfuel; [lia|].
  simpl. fold P. unfold feedPage. fold R.
  pose proof (rowsAfter_accepted (getLastPullDocument (se_store s) E)) as HaccR.
  fold R in HaccR.
  destruct (Nat.le_gt_cases P (length R)) as [Hle|Hgt].
  - (* a full page: there may be more rows *)
    assert (Hlen : length (firstn P R) = P) by (rewrite length_firstn; lia).
    rewrite Hlen, Nat.eqb_refl.
    assert (Hne : firstn P R <> []) by (intros H; rewrite H in Hlen; simpl in Hlen; lia).
    destruct (exists_last Hne) as [pre [x Hpx]].
    set (rest := skipn P R).
    assert (HR : R = app (firstn P R) rest) by (symmetry; apply firstn_skipn).
    assert (HaccP : Forall accepted (firstn P R))
      by (rewrite HR in HaccR; apply Forall_app in HaccR; apply HaccR).
    destruct (pullPage_accepted (firstn P R) s HaccP) as [He1 [Hc1 Hg1]].
    rewrite Hpx, lastRow_app_cons in Hc1. simpl in Hc1. rewrite <- Hpx in Hc1.
    set (s1 := pullPage hash E cfg s (firstn P R)) in *.
    assert (HR1 : rowsAfter (getLastPullDocument (se_store s1) E) rem = rest).
    { rewrite Hc1. apply (rowsAfter_last_of_page rem pre rest x
                            (getLastPullDocument (se_store s) E) Hsorted).
      fold R. rewrite HR, Hpx, <- app_assoc. reflexivity. }
    assert (Hdiv : length R / P = S (length rest / P)).
    { unfold rest. rewrite length_skipn.
      replace (length R) with (1 * P + (length R - P)) at 1 by lia.
      rewrite Nat.div_add_l by lia. reflexivity. }
    destruct (IH s1 (S n)) as [s' [Hrun [He [Hc Hg]]]].
    { rewrite HR1. lia. }
    rewrite HR1 in Hrun, He, Hc, Hg.
    exists s'. split; [|split; [|split]].
    + rewrite Hrun. f_equal. f_equal. lia.
    + rewrite He, He1, <- app_assoc, <- map_app, <- HR. reflexivity.
    + rewrite Hc, HR, lastRow_app. destruct (lastRow rest); [reflexivity|].
      rewrite Hc1, Hpx, lastRow_app_cons. reflexivity.
    + intros k Hk. rewrite Hg, HR, latestRowFor_app by exact Hk.
      destruct (latestRowFor k rest); [reflexivity|]. apply Hg1, Hk.
  - (* a short page: the feed is exhausted *)
    assert (Hall : firstn P R = R) by (apply firstn_all2; lia).
    rewrite Hall.
    assert (Hneq : Nat.eqb (length R) P = false) by (apply Nat.eqb_neq; lia).
    rewrite Hneq.
    destruct (pullPage_accepted R s HaccR) as [He1 [Hc1 Hg1]].
    exists (pullPage hash E cfg s R). repeat split; auto.
    rewrite Nat.div_small by lia. f_equal. f_equal. lia.
Qed.

End PullFromFeed.

Lemma lastRow_nth (l : list row) (d : row) :
  l <> [] -> lastRow l = Some (nth (length l - 1) l d).
Proof.
  induction l as [|x l IH]; intros Hne; [congruence|].
  destruct l as [|y l]; [reflexivity|].
  change (lastRow (x :: y :: l)) with (lastRow (y :: l)).
  rewrite IH by discriminate. simpl. rewrite Nat.sub_0_r. reflexivity.
Qed.

Lemma latestRowFor_absent (k : string) (l : list row) :
  ~ In k (map row_id l) -> latestRowFor k l = None.
Proof.
  intros Hk. unfold latestRowFor. rewrite filter_none; [reflexivity|].
  intros r Hr. apply String.eqb_neq. intros <-. apply Hk, in_map, Hr.
Qed.

Lemma latestRowFor_unique (l : list row) (r : row) :
  NoDup (map row_id l) -> In r l -> latestRowFor (row_id r) l = Some r.
Proof.
  induction l as [|x l IH]; intros Hnd Hin; [destruct Hin|].
  simpl in Hnd. inversion Hnd as [|? ? Hx Hnd']; subst.
  rewrite latestRowFor_cons. destruct Hin as [<-|Hin].
  - rewrite latestRowFor_absent by exact Hx. rewrite String.eqb_refl. reflexivity.
  - rewrite IH; auto.
Qed.

Lemma NoDup_map_filter (f : row -> bool) (l : list row) :
  NoDup (map row_id l) -> NoDup (map row_id (filter f l)).
Proof.
  induction l as [|x l IH]; intros Hnd; simpl; [constructor|].
  simpl in Hnd. inversion Hnd as [|? ? Hx Hnd']; subst.
  destruct (f x); simpl; auto. constructor; auto.
  intros Hin. apply Hx. apply in_map_iff in Hin. destruct Hin as [y [Hy Hin]].
  apply filter_In in Hin. rewrite <- Hy. apply in_map, Hin.
Qed.

(** ** Push cycle: effect on the local store *)

Lemma pushLoop_local (fuel : nat) (E : endpoint) (cfg : pushOptions)
    (tr : transport) :
  forall s,
  (forall k, isCheckpointId k = false ->
     get (se_store (fst (pushLoop fuel E cfg tr s))) k = get (se_store s) k) /\
  (exists evs, se_events (fst (pushLoop fuel E cfg tr s)) = app (se_events s) evs).
Proof.
  induction fuel as [|f IH]; intros s; simpl.
  - split; [reflexivity|]. exists []. symmetry. apply app_nil_r.
  - destruct (changesSince _ _ _) as [|c0 read]; simpl.
    + split; [reflexivity|]. exists []. symmetry. apply app_nil_r.
    + match goal with |- context [if ?b then _ else _] => destruct b end.
      * match goal with |- context [if ?b then _ else _] => destruct b end.
        -- match goal with |- context [pushLoop f E cfg tr ?s1] =>
             destruct (IH s1) as [Hg [evs He]] end.
           split.
           ++ intros k Hk. rewrite Hg by exact Hk. simpl.
              apply get_setPush_other, Hk.
           ++ rewrite He. simpl. rewrite <- app_assoc. eexists. reflexivity.
        -- simpl. split.
           ++ intros k Hk. apply get_setPush_other, Hk.
           ++ eexists. reflexivity.
      * simpl. split; [reflexivity|]. eexists. reflexivity.
Qed.

(** ** A run against the feed *)

Lemma rowsAfter_length (c : option cursor) (rem : list row) :
  length (rowsAfter c rem) <= length rem.
Proof.
  unfold rowsAfter. induction rem as [|x rem IH]; simpl; [lia|].
  destruct (match c with None => true | Some k => Nat.ltb k (row_key x) end);
    simpl; lia.
Qed.

Lemma runCycle_feed (hash : string -> string) (E : endpoint)
    (pullCfg : pullOptions) (pushCfg : pushOptions) (rem : list row)
    (s : session) (fuel : nat) :
  StronglySorted keyLt rem -> Forall (accepted pullCfg) rem ->
  0 < pageSize pullCfg -> length rem < fuel ->
  let R := rowsAfter (getLastPullDocument (se_store s) E) rem in
  let s' := fst (runCycle hash fuel E pullCfg pushCfg
                  (serverTransport rem (pageSize pullCfg)) s) in
  (exists evs, se_events s' = app (se_events s) (app (map Received R) evs)) /\
  (forall k, isCheckpointId k = false ->
     get (se_store s') k =
     match latestRowFor k R with
     | Some r => Some (pulledDoc hash E r)
     | None => get (se_store s) k
     end).
Proof.
  intros Hs Ha Hp Hf R s'.
  assert (HN : length R / pageSize pullCfg < fuel).
  { assert (length R <= length rem) by apply rowsAfter_length.
    assert (length R / pageSize pullCfg <= length R) by
      (apply Nat.Div0.div_le_upper_bound; nia).
    lia. }
  destruct (pullLoop_feed hash E pullCfg rem Hs Ha Hp fuel s 0 HN)
    as [s1 [Hrun [He [_ Hg]]]].
  fold R in Hrun, He, Hg.
  unfold s', runCycle. rewrite Hrun.
  destruct (pushLoop_local fuel E pushCfg
              (serverTransport rem (pageSize pullCfg)) s1) as [Hg2 [evs He2]].
  destruct (pushLoop fuel E pushCfg _ s1) as [s2 o2] eqn:Hpush.
  simpl in Hg2, He2.
  assert (Hfst : fst (match o2 with CycleDone => (s2, true) | _ => (s2, false) end) = s2)
    by (destruct o2; reflexivity).
  rewrite Hfst. split.
  - exists evs. rewrite He2, He, app_assoc. reflexivity.
  - intros k Hk. rewrite Hg2 by exact Hk. apply Hg, Hk.
Qed.

(** Presence after a run of a document whose newest feed row is [r]. *)
Lemma runCycle_feed_row (hash : string -> string) (E : endpoint)
    (pullCfg : pullOptions) (pushCfg : pushOptions) (rem : list row)
    (s : session) (fuel : nat) (r : row) :
  StronglySorted keyLt rem -> Forall (accepted pullCfg) rem ->
  NoDup (map row_id rem) ->
  0 < pageSize pullCfg -> length rem < fuel ->
  isCheckpointId (row_id r) = false ->
  In r (rowsAfter (getLastPullDocument (se_store s) E) rem) ->
  let s' := fst (runCycle hash fuel E pullCfg pushCfg
                  (serverTransport rem (pageSize pullCfg)) s) in
  get (se_store s') (row_id r) = Some (pulledDoc hash E r) /\
  isPresent (se_store s') (row_id r) = negb (row_deleted r) /\
  In (Received r) (se_events s').
Proof.
  intros Hs Ha Hnd Hp Hf Hk Hin s'.
  destruct (runCycle_feed hash E pullCfg pushCfg rem s fuel Hs Ha Hp Hf)
    as [[evs He] Hg].
  assert (Hl : latestRowFor (row_id r)
                 (rowsAfter (getLastPullDocument (se_store s) E) rem) = Some r)
    by (apply latestRowFor_unique; [apply NoDup_map_filter, Hnd|exact Hin]).
  assert (Hget : get (se_store s') (row_id r) = Some (pulledDoc hash E r))
    by (unfold s'; rewrite Hg, Hl by exact Hk; reflexivity).
  split; [exact Hget|]. split.
  - unfold isPresent. rewrite Hget. reflexivity.
  - unfold s'. rewrite He. apply in_or_app. right. apply in_or_app. left.
    apply in_map, Hin.
Qed.

Lemma ceil_div (N P : nat) :
  0 < P -> (N + P - 1) / P = N / P + (if Nat.eqb (N mod P) 0 then 0 else 1).
Proof.
  intros HP.
  pose proof (Nat.div_mod N P ltac:(lia)) as Hdm.
  pose proof (Nat.mod_upper_bound N P ltac:(lia)) as Hm.
  set (q := N / P) in *. set (m := N mod P) in *.
  replace (N + P - 1) with (q * P + (m + P - 1)) by lia.
  rewrite Nat.div_add_l by lia. f_equal.
  destruct (Nat.eqb_spec m 0) as [->|Hm0].
  - apply Nat.div_small. lia.
  - replace (m + P - 1) with (1 * P + (m - 1)) by lia.
    rewrite Nat.div_add_l, Nat.div_small by lia. lia.
Qed.

(** C3 (as amended): against a feed ordered by its cursor key, with a page
    size [P > 0] and every row accepted, one pull cycle over the [N] rows
    after the current cursor answers [N / P + 1] page requests: [ceil(N/P)]
    when [P] does not divide [N], one more (empty) page when it does,
    [N = 0] included.  It completes, applies all [N] rows (one [Received]
    event each, in order, and the newest pulled row is the local state of
    its key) and, for [N >= 1], persists the cursor of the [N]-th row. *)
Theorem C3_pull_pagination (hash : string -> string) (E : endpoint)
    (cfg : pullOptions) (rem : list row) (s : session) (fuel : nat)
    (Hsorted : StronglySorted keyLt rem) (Hacc : Forall (accepted cfg) rem)
    (HP : 0 < pageSize cfg) (Hfuel : length rem < fuel) :
  let R := rowsAfter (getLastPullDocument (se_store s) E) rem in
  let N := length R in
  let P := pageSize cfg in
  exists s',
    pullLoop hash fuel E cfg (serverTransport rem P) s 0 =
      (s', N / P + 1, CycleDone) /\
    (Nat.eqb (N mod P) 0 = false -> N / P + 1 = (N + P - 1) / P) /\
    (Nat.eqb (N mod P) 0 = true -> N / P + 1 = (N + P - 1) / P + 1) /\
    se_events s' = app (se_events s) (map Received R) /\
    (forall k, isCheckpointId k = false ->
       get (se_store s') k =
       match latestRowFor k R with
       | Some r => Some (pulledDoc hash E r)
       | None => get (se_store s) k
       end) /\
    (forall d, 0 < N ->
       getLastPullDocument (se_store s') E = Some (cursorOf (nth (N - 1) R d))).
Proof.
  intros R N P.
  assert (HN : N / P < fuel).
  { assert (N <= length rem) by apply rowsAfter_length.
    assert (N / P <= N) by (apply Nat.Div0.div_le_upper_bound; nia). lia. }
  destruct (pullLoop_feed hash E cfg rem Hsorted Hacc HP fuel s 0 HN)
    as [s' [Hrun [He [Hc Hg]]]].
  exists s'. split; [exact Hrun|].
  pose proof (ceil_div N P HP) as Hceil.
  split; [intros H; rewrite Hceil, H; lia|].
  split; [intros H; rewrite Hceil, H; lia|].
  split; [exact He|]. split; [exact Hg|].
  intros d HN0. fold R in Hc. rewrite Hc, (lastRow_nth R d); [reflexivity|].
  intros H. unfold N in HN0. rewrite H in HN0. simpl in HN0. lia.
Qed.

(** C3 counterexample: five rows on the server and a page size of five;
    the cycle answers two page requests (the second one empty), not
    [ceil(5/5) = 1]. *)
Lemma C3_counterexample :
  let res := pullLoop exampleHash 10 exampleEndpoint (acceptAll 5)
               (serverTransport exampleFeed 5) emptySession 0 in
  snd res = CycleDone /\ snd (fst res) = 2 /\
  snd (fst res) <> (length exampleFeed + 5 - 1) / 5.
Proof. vm_compute. split; [reflexivity|]. split; [reflexivity|]. discriminate. Qed.

(** C4: pulled state wins over local state.  After one run against the
    feed, the local state of a document whose row comes after the cursor is
    the pulled row: present iff the row is not deleted.  A document deleted
    locally and pulled non-deleted is present again; a document present
    locally and pulled deleted is a tombstone, absent from queries. *)
Theorem C4_pulled_state_wins (hash : string -> string) (E : endpoint)
    (pullCfg : pullOptions) (pushCfg : pushOptions) (rem : list row)
    (s : session) (fuel : nat) (r : row)
    (Hsorted : StronglySorted keyLt rem) (Hacc : Forall (accepted pullCfg) rem)
    (Hids : NoDup (map row_id rem)) (HP : 0 < pageSize pullCfg)
    (Hfuel : length rem < fuel) (Hk : isCheckpointId (row_id r) = false)
    (Hin : In r (rowsAfter (getLastPullDocument (se_store s) E) rem)) :
  let s' := fst (runCycle hash fuel E pullCfg pushCfg
                  (serverTransport rem (pageSize pullCfg)) s) in
  isPresent (se_store s') (row_id r) = negb (row_deleted r) /\
  (forall d, get (se_store s) (row_id r) = Some d -> _deleted d = true ->
     row_deleted r = false -> isPresent (se_store s') (row_id r) = true) /\
  (isPresent (se_store s) (row_id r) = true -> row_deleted r = true ->
     isPresent (se_store s') (row_id r) = false /\
     exists d, get (se_store s') (row_id r) = Some d /\ _deleted d = true).
Proof.
  intros s'.
  destruct (runCycle_feed_row hash E pullCfg pushCfg rem s fuel r
              Hsorted Hacc Hids HP Hfuel Hk Hin) as [Hget [Hpres _]].
  fold s' in Hget, Hpres.
  split; [exact Hpres|]. split.
  - intros d _ _ Hdel. rewrite Hpres, Hdel. reflexivity.
  - intros _ Hdel. rewrite Hpres, Hdel. split; [reflexivity|].
    exists (pulledDoc hash E r). split; [exact Hget|exact Hdel].
Qed.

(** C10: when [run()] resolves, every row pulled in that run has already
    been written and its [Received] event emitted: a local query made right
    after the run sees each non-deleted pulled document. *)
Theorem C10_run_resolves_after_apply (hash : string -> string) (E : endpoint)
    (pullCfg : pullOptions) (pushCfg : pushOptions) (rem : list row)
    (s : session) (fuel : nat)
    (Hsorted : StronglySorted keyLt rem) (Hacc : Forall (accepted pullCfg) rem)
    (Hids : NoDup (map row_id rem)) (HP : 0 < pageSize pullCfg)
    (Hfuel : length rem < fuel) :
  let s' := fst (runCycle hash fuel E pullCfg pushCfg
                  (serverTransport rem (pageSize pullCfg)) s) in
  forall r, In r (rowsAfter (getLastPullDocument (se_store s) E) rem) ->
  isCheckpointId (row_id r) = false ->
  In (Received r) (se_events s') /\
  get (se_store s') (row_id r) = Some (pulledDoc hash E r) /\
  (row_deleted r = false -> isPresent (se_store s') (row_id r) = true).
Proof.
  intros s' r Hin Hk.
  destruct (runCycle_feed_row hash E pullCfg pushCfg rem s fuel r
              Hsorted Hacc Hids HP Hfuel Hk Hin) as [Hget [Hpres Hev]].
  fold s' in Hget, Hpres, Hev.
  split; [exact Hev|]. split; [exact Hget|].
  intros Hdel. rewrite Hpres, Hdel. reflexivity.
Qed.

(** ** Run coordinator *)

Section Coordinator.

Variable o : coordOptions.

Lemma fold_runCall {A} (l : list A) :
  forall s,
  let s' := fold_left (fun c _ => runCall c) l s in
  retryTimers s' = retryTimers s /\ now s' = now s /\ stopped s' = stopped s /\
  initialReplicationComplete s' = initialReplicationComplete s /\
  (inFlight s = true -> inFlight s' = true) /\
  (l <> [] -> stopped s = false -> inFlight s' = true).
Proof.
  induction l as [|x l IH]; intros s; simpl.
  - repeat split; auto; intros H; congruence.
  - destruct (IH (runCall s)) as [H1 [H2 [H3 [H4 [H5 H6]]]]].
    assert (Hr : retryTimers (runCall s) = retryTimers s /\ now (runCall s) = now s /\
      stopped (runCall s) = stopped s /\
      initialReplicationComplete (runCall s) = initialReplicationComplete s /\
      (inFlight s = true -> inFlight (runCall s) = true) /\
      (stopped s = false -> inFlight (runCall s) = true)).
    { unfold runCall. destruct (stopped s) eqn:Hst, (inFlight s);
        simpl; repeat split; auto; discriminate. }
    destruct Hr as [R1 [R2 [R3 [R4 [R5 R6]]]]].
    repeat split; try congruence.
    + intros Hi. apply H5, R5, Hi.
    + intros _ Hst. apply H5, R6, Hst.
Qed.

Lemma initial_step (s : coordinator) (e : coordEvent) :
  initialReplicationComplete (coordStep o s e) =
  initialReplicationComplete s ||
  match e with
  | CycleFinished true => inFlight s && negb (stopped s)
  | _ => false
  end.
Proof.
  destruct e as [|ok| |]; simpl.
  - unfold runCall. destruct (stopped s), (inFlight s); simpl; auto using orb_false_r.
  - unfold cycleFinished.
    destruct (inFlight s), (stopped s), ok; simpl; rewrite ?orb_false_r; auto;
      try (destruct (pendingRun s && _); reflexivity).
  - unfold tick. destruct (fold_runCall (filter (fun d => Nat.leb d (S (now s))) (retryTimers s))
      (mkCoordinator (inFlight s) (pendingRun s)
         (filter (fun d => negb (Nat.leb d (S (now s)))) (retryTimers s))
         (S (now s)) (attempts s) (initialReplicationComplete s) (stopped s)))
      as [_ [_ [_ [H _]]]].
    rewrite H, orb_false_r. reflexivity.
  - rewrite orb_false_r. reflexivity.
Qed.

(** Potential of a burst: started attempts plus the pending intent. *)
Lemma cycleFinished_potential (ok : bool) (s : coordinator) :
  attempts (cycleFinished o ok s) + (if pendingRun (cycleFinished o ok s) then 1 else 0)
  <= attempts s + (if pendingRun s then 1 else 0).
Proof.
  unfold cycleFinished.
  destruct (inFlight s), (stopped s); simpl; try lia.
  destruct (pendingRun s), (ok && negb (live o)); simpl; lia.
Qed.

Lemma burst_calls (N : nat) :
  let s := coordRun o initCoordinator (repeat RunCall (S N)) in
  inFlight s = true /\ attempts s = 1 /\ stopped s = false.
Proof.
  assert (H : forall N c, inFlight c = true -> attempts c = 1 -> stopped c = false ->
    let s := fold_left (coordStep o) (repeat RunCall N) c in
    inFlight s = true /\ attempts s = 1 /\ stopped s = false).
  { induction N0 as [|N0 IH]; intros c H1 H2 H3; simpl; auto.
    apply IH; unfold runCall; rewrite H3, H1; simpl; auto. }
  intros s. unfold s, coordRun. cbn [repeat fold_left].
  apply H; reflexivity.
Qed.

End Coordinator.

Lemma finishes_potential (o : coordOptions) (outs : list bool) :
  forall s, attempts s + (if pendingRun s then 1 else 0) <= 2 ->
  attempts (coordRun o s (map CycleFinished outs)) <= 2.
Proof.
  induction outs as [|ok outs IH]; intros s Hs; simpl.
  - destruct (pendingRun s); lia.
  - apply IH. pose proof (cycleFinished_potential o ok s). lia.
Qed.

(** C5: a burst of [N] [run()] calls, all made while the first cycle is in
    flight, followed by the completions of the cycles (successful or not)
    starts at most two cycle attempts, whatever [N] is: fewer than 10. *)
Theorem C5_run_coalescing (o : coordOptions) (N : nat) (outs : list bool) :
  let s := coordRun o initCoordinator
             (app (repeat RunCall N) (map CycleFinished outs)) in
  attempts s <= 2 /\ attempts s < 10.
Proof.
  intros s.
  assert (H : attempts s <= 2).
  { unfold s, coordRun. rewrite fold_left_app. fold (coordRun o initCoordinator (repeat RunCall N)).
    apply finishes_potential.
    destruct N as [|N].
    - simpl. lia.
    - destruct (burst_calls o N) as [_ [Ha _]]. rewrite Ha.
      destruct (pendingRun _); lia. }
  split; lia.
Qed.

(** ** Retries against an endpoint that always fails *)

Section Retry.

Variable o : coordOptions.

(** The coordinator is alive: not stopped, [awaitInitialReplication()]
    unresolved, and a cycle in flight or a retry due within [retryTime]. *)
Definition retrying (s : coordinator) : Prop :=
  stopped s = false /\ initialReplicationComplete s = false /\
  (inFlight s = true \/ exists t, In t (retryTimers s) /\ t <= now s + retryTime o).

Lemma retrying_step (s : coordinator) (e : coordEvent) :
  failingEvent e = true -> retrying s -> retrying (coordStep o s e).
Proof.
  intros He [Hst [Hi Hlive]].
  destruct e as [|ok| |]; simpl in He |- *; try discriminate.
  - unfold runCall, retrying. rewrite Hst.
    destruct (inFlight s); simpl; auto.
  - destruct ok; [discriminate|].
    unfold cycleFinished, retrying.
    destruct (inFlight s) eqn:Hf; simpl; [|unfold retrying; rewrite Hf; auto].
    rewrite Hst, Hi. simpl.
    assert (Hin : In (now s + retryTime o) (app (retryTimers s) [now s + retryTime o]))
      by (apply in_or_app; right; left; reflexivity).
    destruct (pendingRun s); simpl; repeat split; auto; right; eauto.
  - unfold tick.
    set (due := filter (fun d => Nat.leb d (S (now s))) (retryTimers s)).
    set (later := filter (fun d => negb (Nat.leb d (S (now s)))) (retryTimers s)).
    set (s1 := mkCoordinator (inFlight s) (pendingRun s) later (S (now s))
                 (attempts s) (initialReplicationComplete s) (stopped s)).
    destruct (fold_runCall due s1) as [H1 [H2 [H3 [H4 [H5 H6]]]]].
    unfold retrying. rewrite H1, H2, H3, H4. simpl.
    split; [exact Hst|]. split; [exact Hi|].
    destruct Hlive as [Hf|[t [Ht Hle]]]; [left; apply H5, Hf|].
    destruct (Nat.leb t (S (now s))) eqn:Hd.
    + left. apply H6; [|exact Hst].
      intros Hnil. assert (In t due) by (apply filter_In; auto).
      rewrite Hnil in H. destruct H.
    + right. exists t. split; [|lia].
      apply filter_In. rewrite Hd. auto.
Qed.

Lemma retrying_run (tr : list coordEvent) :
  forall s, forallb failingEvent tr = true -> retrying s ->
  retrying (coordRun o s tr).
Proof.
  induction tr as [|e tr IH]; intros s Htr Hs; simpl in *; auto.
  apply andb_true_iff in Htr. destruct Htr as [He Htr].
  apply IH; auto. apply retrying_step; auto.
Qed.

Lemma ticks_wait (t a : nat) (p i st : bool) (j : nat) :
  forall n, n + j < t ->
  coordRun o (mkCoordinator false p [t] n a i st) (repeat Tick j) =
  mkCoordinator false p [t] (n + j) a i st.
Proof.
  induction j as [|j IH]; intros n Hn; simpl.
  - rewrite Nat.add_0_r. reflexivity.
  - unfold tick. simpl.
    assert (Hd : Nat.leb t (S n) = false) by (apply Nat.leb_gt; lia).
    rewrite Hd. simpl.
    rewrite IH by lia. f_equal. lia.
Qed.

Lemma retryRound_attempt (s : coordinator) :
  inFlight s = true -> pendingRun s = false -> retryTimers s = [] ->
  stopped s = false ->
  let s' := coordRun o s (retryRound o) in
  inFlight s' = true /\ pendingRun s' = false /\ retryTimers s' = [] /\
  stopped s' = false /\ attempts s' = S (attempts s).
Proof.
  intros Hf Hp Ht Hs. destruct s as [f p ts n a i st]; simpl in *. subst.
  unfold retryRound, coordRun. cbn [fold_left].
  change (coordStep o _ (CycleFinished false))
    with (cycleFinished o false (mkCoordinator true false [] n a i false)).
  unfold cycleFinished. simpl.
  rewrite fold_left_app.
  fold (coordRun o (mkCoordinator false false [n + retryTime o] n a (i || false) false)
          (repeat Tick (retryTime o - 1))).
  destruct (retryTime o) as [|R] eqn:HR.
  - simpl. unfold tick. simpl.
    replace (Nat.leb (n + 0) (S n)) with true by (symmetry; apply Nat.leb_le; lia).
    simpl. repeat split.
  - rewrite ticks_wait by lia. simpl. unfold tick. simpl.
    replace (Nat.leb (n + S R) (S (n + (R - 0)))) with true
      by (symmetry; apply Nat.leb_le; lia).
    simpl. repeat split.
Qed.

End Retry.

Lemma retryRounds (o : coordOptions) (n : nat) :
  forall s, inFlight s = true -> pendingRun s = false -> retryTimers s = [] ->
  stopped s = false ->
  attempts (coordRun o s (concat (repeat (retryRound o) n))) = attempts s + n.
Proof.
  induction n as [|n IH]; intros s Hf Hp Ht Hs; [simpl; lia|].
  change (concat (repeat (retryRound o) (S n)))
    with (app (retryRound o) (concat (repeat (retryRound o) n))).
  unfold coordRun in *. rewrite fold_left_app.
  destruct (retryRound_attempt o s Hf Hp Ht Hs) as [H1 [H2 [H3 [H4 H5]]]].
  unfold coordRun in H1, H2, H3, H4, H5.
  rewrite IH; auto. rewrite H5. lia.
Qed.

Lemma retryRounds_failing (o : coordOptions) (n : nat) :
  forallb failingEvent (concat (repeat (retryRound o) n)) = true.
Proof.
  apply forallb_forall. intros e He.
  apply in_concat in He. destruct He as [l [Hl He]].
  apply repeat_spec in Hl. subst l.
  unfold retryRound in He. destruct He as [<-|He]; [reflexivity|].
  apply in_app_or in He. destruct He as [He|[<-|[]]]; [|reflexivity].
  apply repeat_spec in He. subst. reflexivity.
Qed.

(** C6: [awaitInitialReplication()] resolves exactly at the first cycle
    completing without error (no other event changes its state); against an
    endpoint where every cycle fails it never resolves: after the first
    [run()], every trace of calls, failed completions and clock ticks leaves
    the session unresolved, not stopped, and with a cycle in flight or a
    retry due within [retryTime]; each failure schedules its retry exactly
    [retryTime] later (a fixed delay), and [n] rounds of failure then
    waiting start [n] more attempts, without bound. *)
Theorem C6_initial_replication_never_resolves (o : coordOptions) :
  (forall s e, initialReplicationComplete (coordStep o s e) =
     initialReplicationComplete s ||
     match e with
     | CycleFinished true => inFlight s && negb (stopped s)
     | _ => false
     end) /\
  (forall tr, forallb failingEvent tr = true ->
     retrying o (coordRun o (runCall initCoordinator) tr)) /\
  (forall s, inFlight s = true -> stopped s = false ->
     In (now s + retryTime o) (retryTimers (cycleFinished o false s))) /\
  (forall n, forallb failingEvent (concat (repeat (retryRound o) n)) = true /\
     attempts (coordRun o (runCall initCoordinator)
                 (concat (repeat (retryRound o) n))) = S n).
Proof.
  split; [apply initial_step|].
  split.
  - intros tr Htr. apply retrying_run; auto.
    unfold retrying. simpl. auto.
  - split.
    + intros s Hf Hs. unfold cycleFinished. rewrite Hf, Hs. simpl.
      destruct (pendingRun s && true); simpl;
        apply in_or_app; right; left; reflexivity.
    + intros n. split; [apply retryRounds_failing|].
      rewrite retryRounds; reflexivity.
Qed.

(** ** Concrete runs *)

Example scan_filters_echo :
  length (changedDocs (getChangesSinceLastPushSequence storeWithEcho exampleEndpoint 10)) = 5 /\
  lastSequence (getChangesSinceLastPushSequence storeWithEcho exampleEndpoint 10) = 6 /\
  length (changedDocs (getChangesSinceLastPushSequence storeWithEcho otherEndpoint 10)) = 6.
Proof. vm_compute. repeat split. Qed.

Example scan_limit :
  length (changedDocs (getChangesSinceLastPushSequence storeWithEcho exampleEndpoint 3)) = 3 /\
  lastSequence (getChangesSinceLastPushSequence storeWithEcho exampleEndpoint 3) = 3.
Proof. vm_compute. repeat split. Qed.

Example pull_feed_in_one_cycle :
  let res := pullLoop exampleHash 10 exampleEndpoint (acceptAll 2)
               (serverTransport exampleFeed 2) emptySession 0 in
  snd (fst res) = 3 /\ getLastPullDocument (se_store (fst (fst res))) exampleEndpoint = Some 5.
Proof. vm_compute. split; reflexivity. Qed.

Example fifty_calls_two_attempts :
  attempts (coordRun defaultCoord initCoordinator
              (app (repeat RunCall 50) (map CycleFinished [false; false; false]))) = 2.
Proof. vm_compute. reflexivity. Qed.

Lemma exampleFeed_sorted : StronglySorted keyLt exampleFeed.
Proof.
  unfold exampleFeed.
  repeat apply SSorted_cons; try apply SSorted_nil;
    repeat apply Forall_cons; try apply Forall_nil; unfold keyLt; simpl; lia.
Qed.

Lemma exampleFeed_ids : NoDup (map row_id exampleFeed).
Proof.
  simpl. repeat (apply NoDup_cons; [simpl; intuition discriminate|]).
  apply NoDup_nil.
Qed.

Lemma exampleFeed_accepted : Forall (accepted (acceptAll 5)) exampleFeed.
Proof. repeat constructor. Qed.

(** ** Witnesses *)

Lemma C1_witness :
  exampleEndpoint <> otherEndpoint /\
  wasTaggedBy otherEndpoint (tagRevision exampleHash exampleEndpoint [("name", "a")]) = false.
Proof.
  assert (Hne : exampleEndpoint <> otherEndpoint)
    by (intros H; apply (f_equal endpointHash) in H; discriminate).
  split; [exact Hne|].
  exact (proj1 (proj2 (proj2 (C1_echo_tagger exampleHash exampleEndpoint otherEndpoint
           [("name", "a")] [("name", "a")] Hne)))).
Defined.

Lemma C8_witness :
  get emptyStore (checkpointId exampleEndpoint) = None /\
  getLastPushSequence (run_checkpoint_calls emptyStore
    [SetPush exampleEndpoint 5; SetPull exampleEndpoint 3; SetPush exampleEndpoint 10])
    exampleEndpoint = 10.
Proof.
  split; [reflexivity|].
  exact (proj1 (proj2 (proj2 (C8_checkpoint_store emptyStore
    [SetPush exampleEndpoint 5; SetPull exampleEndpoint 3; SetPush exampleEndpoint 10]
    exampleEndpoint eq_refl)))).
Defined.

Lemma C9_witness :
  dropNameOf "b" (feedRow "b" 2 false) = Some (mkRow "b" 2 false []) /\
  requireName (mkRow "b" 2 false []) = false /\
  rowEvents schemaCheckedPull (feedRow "b" 2 false) =
    [Error (ValidationError (mkRow "b" 2 false []))] /\
  getLastPullDocument (se_store (pullPage exampleHash exampleEndpoint schemaCheckedPull
    emptySession [feedRow "a" 1 false; feedRow "b" 2 false; feedRow "c" 3 false]))
    exampleEndpoint = Some 3.
Proof.
  split; [reflexivity|]. split; [reflexivity|].
  pose proof (C9_validation_failure_skips_row exampleHash exampleEndpoint schemaCheckedPull
    (serverTransport [feedRow "a" 1 false; feedRow "b" 2 false; feedRow "c" 3 false] 5)
    emptySession [feedRow "a" 1 false] [feedRow "c" 3 false]
    (feedRow "b" 2 false) (mkRow "b" 2 false []) 3 0
    ltac:(reflexivity) ltac:(reflexivity) ltac:(vm_compute; reflexivity)) as H.
  destruct H as [H1 [_ [_ [H4 _]]]].
  split; [exact H1|exact H4].
Defined.

Lemma C3_witness :
  StronglySorted keyLt exampleFeed /\ Forall (accepted (acceptAll 5)) exampleFeed /\
  0 < pageSize (acceptAll 5) /\ length exampleFeed < 10 /\
  exists s', pullLoop exampleHash 10 exampleEndpoint (acceptAll 5)
               (serverTransport exampleFeed 5) emptySession 0 = (s', 2, CycleDone) /\
             getLastPullDocument (se_store s') exampleEndpoint = Some 5.
Proof.
  assert (HP : 0 < pageSize (acceptAll 5)) by (simpl; lia).
  assert (Hfuel : length exampleFeed < 10) by (simpl; lia).
  split; [exact exampleFeed_sorted|]. split; [exact exampleFeed_accepted|].
  split; [exact HP|]. split; [exact Hfuel|].
  destruct (C3_pull_pagination exampleHash exampleEndpoint (acceptAll 5) exampleFeed
              emptySession 10 exampleFeed_sorted exampleFeed_accepted HP Hfuel)
    as [s' [Hrun [_ [_ [_ [_ Hcur]]]]]].
  exists s'. split.
  - exact Hrun.
  - exact (Hcur (feedRow "z" 0 false) ltac:(vm_compute; lia)).
Defined.

Lemma C4_witness :
  isPresent (se_store locallyPresent) "a" = true /\
  isPresent (se_store (fst (runCycle exampleHash 10 exampleEndpoint (acceptAll 5) (pushAll 5)
    (serverTransport feedWithDeletion 5) locallyPresent))) "a" = false.
Proof.
  assert (Hsorted : StronglySorted keyLt feedWithDeletion).
  { unfold feedWithDeletion.
    repeat apply SSorted_cons; try apply SSorted_nil;
      repeat apply Forall_cons; try apply Forall_nil; unfold keyLt; simpl; lia. }
  assert (Hacc : Forall (accepted (acceptAll 5)) feedWithDeletion) by (repeat constructor).
  assert (Hids : NoDup (map row_id feedWithDeletion)).
  { simpl. repeat (apply NoDup_cons; [simpl; intuition discriminate|]). apply NoDup_nil. }
  assert (HP : 0 < pageSize (acceptAll 5)) by (simpl; lia).
  assert (Hfuel : length feedWithDeletion < 10) by (simpl; lia).
  split; [vm_compute; reflexivity|].
  exact (proj1 (C4_pulled_state_wins exampleHash exampleEndpoint (acceptAll 5) (pushAll 5)
    feedWithDeletion locallyPresent 10 (feedRow "a" 1 true)
    Hsorted Hacc Hids HP Hfuel ltac:(vm_compute; reflexivity) ltac:(simpl; left; reflexivity))).
Defined.

Lemma C10_witness :
  get (se_store (fst (runCycle exampleHash 10 exampleEndpoint (acceptAll 5) (pushAll 5)
    (serverTransport exampleFeed 5) emptySession))) "c" =
    Some (pulledDoc exampleHash exampleEndpoint (feedRow "c" 3 false)).
Proof.
  assert (HP : 0 < pageSize (acceptAll 5)) by (simpl; lia).
  assert (Hfuel : length exampleFeed < 10) by (simpl; lia).
  exact (proj1 (proj2 (C10_run_resolves_after_apply exampleHash exampleEndpoint
    (acceptAll 5) (pushAll 5) exampleFeed emptySession 10
    exampleFeed_sorted exampleFeed_accepted exampleFeed_ids HP Hfuel
    (feedRow "c" 3 false) ltac:(simpl; right; right; left; reflexivity)
    ltac:(vm_compute; reflexivity)))).
Defined.

(** * Properties of the code outside the replication engine *)

(** ** JavaScript values *)

Lemma getProp_setProp_same (o : jsobject) (k : string) (v : jsval) :
  getProp (setProp o k v) k = v.
Proof.
  induction o as [|[k' v'] o IH]; simpl.
  - now rewrite String.eqb_refl.
  - destruct (String.eqb k' k) eqn:E; simpl; rewrite ?E; auto.
Qed.

Lemma getProp_setProp_other (o : jsobject) (k k' : string) (v : jsval) :
  k' <> k -> getProp (setProp o k v) k' = getProp o k'.
Proof.
  intros Hne. induction o as [|[k0 v0] o IH]; simpl.
  - destruct (String.eqb k k') eqn:E; auto.
    apply String.eqb_eq in E. congruence.
  - destruct (String.eqb k0 k) eqn:E; simpl.
    + apply String.eqb_eq in E. subst k0.
      destruct (String.eqb k k') eqn:E'; auto.
      apply String.eqb_eq in E'. congruence.
    + destruct (String.eqb k0 k'); auto.
Qed.

(** ** String splitting *)

Lemma append_inj_l (p a b : string) : p ++ a = p ++ b -> a = b.
Proof.
  induction p as [|c p IH]; simpl; auto.
  intros H. injection H as H. auto.
Qed.

(** Two strings split at the first occurrence of a separator [c] that
    neither head contains. *)
Lemma append_sep_inj (c : ascii) (x y s t : string) :
  ~ In c (list_ascii_of_string x) -> ~ In c (list_ascii_of_string y) ->
  x ++ String c s = y ++ String c t -> x = y /\ s = t.
Proof.
  revert y. induction x as [|a x IH]; intros y Hx Hy H; destruct y as [|b y]; simpl in *.
  - injection H as H. auto.
  - injection H as Hc _. subst b. exfalso. apply Hy. now left.
  - injection H as Hc _. subst a. exfalso. apply Hx. now left.
  - injection H as Hab H. subst b.
    destruct (IH y) as [-> ->]; auto.
Qed.

Lemma string_of_uint_no_comma (d : Decimal.uint) :
  ~ In ","%char (list_ascii_of_string (NilZero.string_of_uint d)).
Proof.
  assert (Hne : forall d, ~ In ","%char (list_ascii_of_string (NilEmpty.string_of_uint d))).
  { induction d0; simpl; intuition discriminate. }
  destruct d; [simpl; intuition discriminate|..]; apply Hne.
Qed.

Lemma to_uint_nonnil (n : nat) : Nat.to_uint n <> Decimal.Nil.
Proof.
  rewrite <- (Unsigned.of_to n) at 1. rewrite Unsigned.to_of. apply DecimalFacts.unorm_nonnil.
Qed.

Lemma numberToString_inj (n m : nat) :
  ReplicationTest.numberToString n = ReplicationTest.numberToString m -> n = m.
Proof.
  unfold ReplicationTest.numberToString. intros H.
  assert (Hu : Nat.to_uint n = Nat.to_uint m).
  { pose proof (NilZero.usu (Nat.to_uint n) (to_uint_nonnil n)) as Hn.
    pose proof (NilZero.usu (Nat.to_uint m) (to_uint_nonnil m)) as Hm.
    rewrite H in Hn. congruence. }
  now apply Unsigned.to_uint_inj.
Qed.

Definition feedQueryPrefix : string :=
  "{" ++ ReplicationTest.NL ++ ReplicationTest.spaces 12 ++ "feedForRxDBReplication(lastId: ".

Definition feedQueryTail : string :=
  " limit: " ++ ReplicationTest.numberToString ReplicationTest.batchSize ++ ") {" ++
  ReplicationTest.NL ++
  ReplicationTest.spaces 16 ++ "id" ++ ReplicationTest.NL ++
  ReplicationTest.spaces 16 ++ "name" ++ ReplicationTest.NL ++
  ReplicationTest.spaces 16 ++ "age" ++ ReplicationTest.NL ++
  ReplicationTest.spaces 16 ++ "updatedAt" ++ ReplicationTest.NL ++
  ReplicationTest.spaces 16 ++ "deleted" ++ ReplicationTest.NL ++
  ReplicationTest.spaces 12 ++ "}" ++ ReplicationTest.NL ++
  ReplicationTest.spaces 8 ++ "}".

Lemma queryBuilder_shape (d : ReplicationTest.pullDoc) :
  ReplicationTest.query (ReplicationTest.queryBuilder (Some d)) =
  feedQueryPrefix ++ String "034"%char
    (ReplicationTest.id d ++ String "034"%char
      (", minUpdatedAt: " ++ ReplicationTest.numberToString (ReplicationTest.updatedAt d) ++
       String ","%char feedQueryTail)).
Proof. reflexivity. Qed.

(** ** Helpers of the replication test suite *)

(** [getTimestamp] rounds the clock to the nearest second (halves up):
    the timestamp, in milliseconds, is within half a second of the
    clock; and it never decreases as the clock advances. *)
Theorem getTimestamp_nearest_second (nowMs : nat) :
  ReplicationTest.getTimestamp nowMs * 1000 <= nowMs + 500 <
    ReplicationTest.getTimestamp nowMs * 1000 + 1000 /\
  (forall later, nowMs <= later ->
     ReplicationTest.getTimestamp nowMs <= ReplicationTest.getTimestamp later).
Proof.
  unfold ReplicationTest.getTimestamp. split.
  - pose proof (Nat.div_mod_eq (nowMs + 500) 1000).
    pose proof (Nat.mod_upper_bound (nowMs + 500) 1000 ltac:(lia)). lia.
  - intros later Hle. apply Nat.Div0.div_le_mono. lia.
Qed.

(** The pull query of the test suite determines its cursor: two documents
    whose ids contain no double quote give the same query exactly when
    they have the same id and the same [updatedAt]; with no document the
    query is the one for the cursor [('', 0)]. *)
Theorem queryBuilder_cursor_injective (d1 d2 : ReplicationTest.pullDoc)
    (H1 : ~ In "034"%char (list_ascii_of_string (ReplicationTest.id d1)))
    (H2 : ~ In "034"%char (list_ascii_of_string (ReplicationTest.id d2))) :
  (ReplicationTest.queryBuilder (Some d1) = ReplicationTest.queryBuilder (Some d2) <->
   d1 = d2) /\
  ReplicationTest.queryBuilder None =
    ReplicationTest.queryBuilder (Some (ReplicationTest.mkPullDoc "" 0)).
Proof.
  split; [|reflexivity].
  split; [|intros ->; reflexivity].
  intros H. apply (f_equal ReplicationTest.query) in H.
  rewrite !queryBuilder_shape in H.
  apply append_inj_l in H. injection H as H.
  apply append_sep_inj in H; auto. destruct H as [Hid H].
  apply (append_inj_l ", minUpdatedAt: ") in H.
  apply append_sep_inj in H; try apply string_of_uint_no_comma.
  destruct H as [Hn _]. apply numberToString_inj in Hn.
  destruct d1, d2; simpl in *; congruence.
Qed.

(** [getTestData(amount)] returns [amount] fresh generated documents, in
    the order generated, each with [deleted] set to [false] and its other
    properties as generated; the generator advances by [amount] calls. *)
Theorem getTestData_docs (gen : nat -> jsobject) (calls amount : nat) :
  let '(docs, calls') := ReplicationTest.getTestData gen calls amount in
  length docs = amount /\ calls' = calls + amount /\
  (forall i, i < amount -> exists doc,
     nth_error docs i = Some doc /\
     getProp doc "deleted" = JBool false /\
     (forall k, k <> "deleted" -> getProp doc k = getProp (gen (calls + i)) k)).
Proof.
  unfold ReplicationTest.getTestData. split; [|split; [reflexivity|]].
  - now rewrite !length_map, length_seq.
  - intros i Hi. eexists. split.
    + rewrite nth_error_map, nth_error_map, nth_error_seq.
      destruct (Nat.ltb_spec i amount); [|lia]. simpl. reflexivity.
    + split.
      * apply getProp_setProp_same.
      * intros k Hk. apply getProp_setProp_other. exact Hk.
Qed.

(** ** Collection hooks of the dev-mode plugin *)

(** [preCreateRxCollection] lets a collection be created exactly when the
    name check passes, the name is a string not starting with ['_'], and
    the schema is truthy; a name starting with ['_'] is refused with [DB2]
    even when the schema is missing, and a name that is not a string makes
    it throw a [TypeError]. *)
Theorem preCreateRxCollection_accepts `{DevModeChecks} (args : jsobject) :
  (preCreateRxCollection args = Ok tt <->
   ensureCollectionNameValid args = None /\
   (exists name, getProp args "name" = JStr name /\ substring 0 1 name <> "_") /\
   truthy (getProp args "schema") = true) /\
  (forall name, ensureCollectionNameValid args = None ->
     getProp args "name" = JStr name -> substring 0 1 name = "_" ->
     preCreateRxCollection args = Throw (RxError "DB2" [("name", JStr name)])) /\
  (ensureCollectionNameValid args = None ->
   (forall name, getProp args "name" <> JStr name) ->
   exists msg, preCreateRxCollection args = Throw (JsError "TypeError" msg)).
Proof.
  unfold preCreateRxCollection. split; [|split].
  - split.
    + destruct (ensureCollectionNameValid args) eqn:Ev; [discriminate|].
      destruct (charAt0 (getProp args "name")) as [c|e] eqn:Ec; [|discriminate].
      destruct (String.eqb c "_") eqn:E_; [discriminate|].
      destruct (truthy (getProp args "schema")) eqn:Es; [|discriminate].
      intros _. split; [reflexivity|]. split; [|reflexivity].
      destruct (getProp args "name") eqn:En; try discriminate.
      simpl in Ec. injection Ec as <-. exists s. split; [reflexivity|].
      intros Heq. rewrite Heq in E_. discriminate.
    + intros [Ev [[name [En Hn]] Es]]. rewrite Ev, En. simpl.
      destruct (String.eqb (substring 0 1 name) "_") eqn:E_.
      * apply String.eqb_eq in E_. contradiction.
      * rewrite Es. reflexivity.
  - intros name Ev En Hn. rewrite Ev, En. simpl. rewrite Hn. reflexivity.
  - intros Ev Hns. rewrite Ev.
    destruct (getProp args "name") eqn:En; simpl; eauto.
    exfalso. apply (Hns s). reflexivity.
Qed.


(** ** Event reduce *)


Section EventReduceProofs.
Context {D M Ev ER : Type} `{EventReduceEnv D M Ev ER}.

Lemma cacheGet_getQueryParams (cache : paramsCache D) (q : rxQuery D M) :
  cacheGet (fst (getQueryParams cache q)) (rq_id q) = Some (snd (getQueryParams cache q)).
Proof.
  unfold getQueryParams. destruct (cacheGet cache (rq_id q)) eqn:E; simpl; auto.
  now rewrite Nat.eqb_refl.
Qed.

Lemma getQueryParams_hit (cache : paramsCache D) (q : rxQuery D M) p :
  cacheGet cache (rq_id q) = Some p -> getQueryParams cache q = (cache, p).
Proof. unfold getQueryParams. intros ->. reflexivity. Qed.

Lemma find_changed (p : queryParams D) evs r m ch :
  findNonOptimizeable p evs r m ch =
  let '(f, r', m', ch') := findNonOptimizeable p evs r m false in (f, r', m', ch || ch').
Proof.
  revert r m ch. induction evs as [|e evs IH]; intros r m ch; simpl.
  - now rewrite orb_false_r.
  - destruct (String.eqb _ "runFullQueryAgain"); [now rewrite orb_false_r|].
    destruct (negb _).
    + destruct (runAction _ _ _ r m) as [r1 m1].
      rewrite (IH r1 m1 true). destruct (findNonOptimizeable p evs r1 m1 false) as [[[f r2] m2] c2].
      now rewrite orb_true_r, orb_true_l.
    + apply IH.
Qed.

Lemma find_app_found (p : queryParams D) evs post r m ch e :
  fst (fst (fst (findNonOptimizeable p evs r m ch))) = Some e ->
  findNonOptimizeable p (app evs post) r m ch = findNonOptimizeable p evs r m ch.
Proof.
  revert r m ch. induction evs as [|e0 evs IH]; intros r m ch; simpl; [discriminate|].
  destruct (String.eqb _ "runFullQueryAgain"); [reflexivity|].
  destruct (negb _).
  - destruct (runAction _ _ _ r m) as [r1 m1]. apply IH.
  - apply IH.
Qed.

Lemma find_app_none (p : queryParams D) evs1 evs2 r m ch r1 m1 ch1 :
  findNonOptimizeable p evs1 r m ch = (None, r1, m1, ch1) ->
  findNonOptimizeable p (app evs1 evs2) r m ch = findNonOptimizeable p evs2 r1 m1 ch1.
Proof.
  revert r m ch. induction evs1 as [|e0 evs IH]; intros r m ch; simpl.
  - congruence.
  - destruct (String.eqb _ "runFullQueryAgain"); [discriminate|].
    destruct (negb _).
    + destruct (runAction _ _ _ r m) as [r2 m2]. apply IH.
    + apply IH.
Qed.

Lemma find_doNothing (p : queryParams D) evs r m ch :
  Forall (fun cE => calculateActionName p (rxChangeEventToEventReduceChangeEvent cE) r m =
                    "doNothing") evs ->
  findNonOptimizeable p evs r m ch = (None, r, m, ch).
Proof.
  induction 1 as [|e evs He _ IH]; simpl; auto.
  rewrite He. simpl. exact IH.
Qed.

Lemma setResultsDataMap_same (q : rxQuery D M) : setResultsDataMap q (rq_resultsDataMap q) = q.
Proof. destruct q; reflexivity. Qed.



(** Once an event needs a full rerun, the events after it are never looked
    at: appending events to a batch that asks for a full rerun changes
    neither the result, nor the query, nor the cache. *)
Theorem calculateNewResults_stops_at_full_rerun (cache : paramsCache D) (q : rxQuery D M)
    (evs post : list Ev)
    (Hfull : snd (calculateNewResults cache q evs) = RunFullQueryAgain) :
  calculateNewResults cache q (app evs post) = calculateNewResults cache q evs.
Proof.
  revert Hfull. unfold calculateNewResults.
  destruct (rq_eventReduce q); simpl; [|reflexivity].
  destruct (getQueryParams cache q) as [c p].
  destruct (findNonOptimizeable p evs (rq_resultsData q) (rq_resultsDataMap q) false)
    as [[[f r] m] ch] eqn:Ef.
  destruct f as [e|]; [|discriminate]. intros _.
  rewrite (find_app_found p evs post _ _ _ e); [|now rewrite Ef]. now rewrite Ef.
Qed.

(** When every event of a batch is classified [doNothing] against the
    query's current results, [calculateNewResults] reports no change,
    returns the current results, and leaves the query as it is (an empty
    batch included). *)
Theorem calculateNewResults_nothing_to_do (cache : paramsCache D) (q : rxQuery D M)
    (evs : list Ev) (Hon : rq_eventReduce q = true)
    (Hnop : Forall (fun cE => calculateActionName (snd (getQueryParams cache q))
                      (rxChangeEventToEventReduceChangeEvent cE)
                      (rq_resultsData q) (rq_resultsDataMap q) = "doNothing") evs) :
  calculateNewResults cache q evs =
    (fst (getQueryParams cache q), q, Reduced false (rq_resultsData q)).
Proof.
  unfold calculateNewResults. rewrite Hon. simpl.
  destruct (getQueryParams cache q) as [c p]. simpl in Hnop.
  rewrite (find_doNothing p evs _ _ false Hnop).
  now rewrite setResultsDataMap_same.
Qed.

(** Reducing a batch in two parts is reducing it at once: after a first
    part that needs no rerun, the second part is reduced from the first
    part's results and map, with the same cached parameters, and the
    batch has changed when either part has. *)
Theorem calculateNewResults_app (cache cache1 : paramsCache D) (q q1 : rxQuery D M)
    (evs1 evs2 : list Ev) (changed1 : bool) (res1 : list D)
    (H1 : calculateNewResults cache q evs1 = (cache1, q1, Reduced changed1 res1)) :
  calculateNewResults cache q (app evs1 evs2) =
    let '(cache2, q2, r2) := calculateNewResults cache1 (setResultsData q1 res1) evs2 in
    (cache2, setResultsData q2 (rq_resultsData q),
     match r2 with
     | RunFullQueryAgain => RunFullQueryAgain
     | Reduced ch2 res2 => Reduced (changed1 || ch2) res2
     end).
Proof.
  revert H1. unfold calculateNewResults.
  destruct (rq_eventReduce q) eqn:Er; simpl; [|discriminate].
  pose proof (cacheGet_getQueryParams cache q) as Hc.
  destruct (getQueryParams cache q) as [c p] eqn:Eg. simpl in Hc.
  destruct (findNonOptimizeable p evs1 (rq_resultsData q) (rq_resultsDataMap q) false)
    as [[[f r] m] ch] eqn:Ef.
  destruct f; [discriminate|]. intros H1. injection H1 as <- <- <- <-.
  rewrite (find_app_none p evs1 evs2 _ _ _ r m ch Ef).
  unfold setResultsData, setResultsDataMap. simpl. rewrite Er. simpl.
  erewrite getQueryParams_hit by exact Hc.
  rewrite (find_changed p evs2 r m ch).
  destruct (findNonOptimizeable p evs2 r m false) as [[[f2 r2] m2] c2].
  destruct f2; reflexivity.
Qed.

(** A batch asking for a full rerun still leaves its mark: the actions run
    for the events before the non-optimizable one stay in the query's
    [_resultsDataMap] (a shared object), although the results computed
    with them are dropped. *)
Theorem calculateNewResults_full_rerun_keeps_map (cache cache1 : paramsCache D)
    (q q1 : rxQuery D M) (evs post : list Ev) (e : Ev) (changed1 : bool) (res1 : list D)
    (H1 : calculateNewResults cache q evs = (cache1, q1, Reduced changed1 res1))
    (He : calculateActionName (snd (getQueryParams cache q))
            (rxChangeEventToEventReduceChangeEvent e) res1 (rq_resultsDataMap q1) =
          "runFullQueryAgain") :
  calculateNewResults cache q (app evs (e :: post)) = (cache1, q1, RunFullQueryAgain).
Proof.
  revert H1. unfold calculateNewResults.
  destruct (rq_eventReduce q) eqn:Er; simpl; [|discriminate].
  destruct (getQueryParams cache q) as [c p] eqn:Eg. simpl in He.
  destruct (findNonOptimizeable p evs (rq_resultsData q) (rq_resultsDataMap q) false)
    as [[[f r] m] ch] eqn:Ef.
  destruct f; [discriminate|]. intros H1. injection H1 as <- <- <- <-.
  rewrite (find_app_none p evs (e :: post) _ _ _ r m ch Ef).
  simpl in He |- *. rewrite He. reflexivity.
Qed.

End EventReduceProofs.

(** ** Witnesses of the properties above *)

Lemma queryBuilder_cursor_injective_witness :
  ~ In "034"%char (list_ascii_of_string "a") /\
  ReplicationTest.queryBuilder (Some (ReplicationTest.mkPullDoc "a" 1)) <>
  ReplicationTest.queryBuilder (Some (ReplicationTest.mkPullDoc "a" 10)).
Proof.
  assert (Ha : ~ In "034"%char (list_ascii_of_string "a")) by (simpl; intuition discriminate).
  split; [exact Ha|]. intros Heq.
  pose proof (proj1 (proj1 (queryBuilder_cursor_injective
    (ReplicationTest.mkPullDoc "a" 1) (ReplicationTest.mkPullDoc "a" 10) Ha Ha)) Heq) as H.
  discriminate H.
Defined.

Lemma calculateNewResults_stops_at_full_rerun_witness :
  snd (exampleCalculateNewResults [] exampleQuery [5; 0]) = RunFullQueryAgain /\
  exampleCalculateNewResults [] exampleQuery [5; 0; 9; 1] = exampleCalculateNewResults [] exampleQuery [5; 0].
Proof.
  split; [vm_compute; reflexivity|].
  exact (@calculateNewResults_stops_at_full_rerun nat (list nat) nat nat exampleEventReduce [] exampleQuery [5; 0] [9; 1]
           ltac:(vm_compute; reflexivity)).
Defined.

Lemma calculateNewResults_nothing_to_do_witness :
  rq_eventReduce exampleQuery = true /\
  exampleCalculateNewResults [] exampleQuery [1; 1] =
    (fst (exampleGetQueryParams [] exampleQuery), exampleQuery, Reduced false []).
Proof.
  split; [reflexivity|].
  exact (@calculateNewResults_nothing_to_do nat (list nat) nat nat exampleEventReduce [] exampleQuery [1; 1] eq_refl
           ltac:(repeat constructor)).
Defined.

Lemma calculateNewResults_app_witness :
  snd (exampleCalculateNewResults [] exampleQuery [5]) = Reduced true [5] /\
  snd (exampleCalculateNewResults [] exampleQuery [5; 6]) = Reduced true [5; 6].
Proof.
  split; [vm_compute; reflexivity|].
  change [5; 6] with (app [5] [6]). unfold exampleCalculateNewResults.
  rewrite (@calculateNewResults_app nat (list nat) nat nat exampleEventReduce [] (fst (fst (exampleCalculateNewResults [] exampleQuery [5])))
             exampleQuery (snd (fst (exampleCalculateNewResults [] exampleQuery [5])))
             [5] [6] true [5] ltac:(vm_compute; reflexivity)).
  vm_compute. reflexivity.
Defined.

Lemma calculateNewResults_full_rerun_keeps_map_witness :
  rq_resultsDataMap (snd (fst (exampleCalculateNewResults [] exampleQuery [5; 0; 6]))) = [5] /\
  snd (exampleCalculateNewResults [] exampleQuery [5; 0; 6]) = RunFullQueryAgain.
Proof.
  change [5; 0; 6] with (app [5] (0 :: [6])). unfold exampleCalculateNewResults.
  rewrite (@calculateNewResults_full_rerun_keeps_map nat (list nat) nat nat exampleEventReduce []
             (fst (fst (exampleCalculateNewResults [] exampleQuery [5]))) exampleQuery
             (snd (fst (exampleCalculateNewResults [] exampleQuery [5]))) [5] [6] 0 true [5]
             ltac:(vm_compute; reflexivity) ltac:(vm_compute; reflexivity)).
  split; vm_compute; reflexivity.
Defined.
